(** * A verified model of [server.py]: the YouTube transcript server

  The development follows the structure of the program:

  - [PyStr]: the [str] methods the program and [urllib.parse] use;
  - [Py]: exceptions and the results of library calls;
  - [Urllib]: [urlparse] and [parse_qs] of [urllib.parse] (CPython 3.11);
  - [PyVal]: JSON documents as Python values;
  - [Effects]: computations that log and call the transcript library;
  - [Resolver]: the extraction of the video identifier inside
    [get_video_transcript];
  - [Werkzeug]: response objects and their header list;
  - [Limits]: the fixed-window counters of flask-limiter;
  - [Server]: the functions of [server.py] and Flask's request dispatch;
  - facts about each of these, then the properties of the
    specification, one theorem per claim.

  A Python [str] is represented by a [string] holding its UTF-8
  encoding; every literal of the program is ASCII, so literals read the
  same on both sides. *)

From Stdlib Require Import String Ascii List ZArith Lia Bool.
From Stdlib Require Import SpecFloat.
From stdpp Require Import gmap strings list.

Open Scope string_scope.
Open Scope list_scope.

(* ===================================================================== *)
(** * Python strings *)
(* ===================================================================== *)

Module PyStr.

Definition ord (c : ascii) : nat := nat_of_ascii c.

(** [c in chars] for a one-character string [c]. *)
Fixpoint char_in (c : ascii) (chars : string) : bool :=
  match chars with
  | EmptyString => false
  | String d rest => Ascii.eqb c d || char_in c rest
  end.

(** [sub in s]. *)
Fixpoint contains (sub s : string) : bool :=
  String.prefix sub s ||
  match s with
  | EmptyString => false
  | String _ rest => contains sub rest
  end.

(** [c in s] for a one-character [c]: the same test, kept apart because
    the library uses it on every delimiter. *)
Fixpoint has_char (c : ascii) (s : string) : bool :=
  match s with
  | EmptyString => false
  | String d rest => Ascii.eqb d c || has_char c rest
  end.

(** [s.split(sep)] for a one-character separator. *)
Fixpoint split (sep : ascii) (s : string) : list string :=
  match s with
  | EmptyString => [EmptyString]
  | String c rest =>
      if Ascii.eqb c sep then EmptyString :: split sep rest
      else match split sep rest with
           | h :: t => String c h :: t
           | [] => [String c EmptyString]
           end
  end.

(** [s.partition(sep)]: the text before the first [sep] and, when there
    is one, the text after it. *)
Fixpoint partition (sep : ascii) (s : string) : string * option string :=
  match s with
  | EmptyString => (EmptyString, None)
  | String c rest =>
      if Ascii.eqb c sep then (EmptyString, Some rest)
      else let '(h, t) := partition sep rest in (String c h, t)
  end.

(** [s.split(sep, 1)]. *)
Definition split1 (sep : ascii) (s : string) : list string :=
  match partition sep s with
  | (h, None) => [h]
  | (h, Some t) => [h; t]
  end.

(** The text before and after the last [sep], when there is one
    ([s[:i]] and [s[i+1:]] for [i = s.rfind(sep)]). *)
Fixpoint rpartition (sep : ascii) (s : string) : option (string * string) :=
  match s with
  | EmptyString => None
  | String c rest =>
      match rpartition sep rest with
      | Some (a, b) => Some (String c a, b)
      | None => if Ascii.eqb c sep then Some (EmptyString, rest) else None
      end
  end.

(** [s.lstrip(chars)], the set of characters given as a predicate. *)
Fixpoint lstrip (p : ascii -> bool) (s : string) : string :=
  match s with
  | EmptyString => EmptyString
  | String c rest => if p c then lstrip p rest else s
  end.

(** Removal of every character satisfying [p]
    (a chain of [s.replace(b, "")]). *)
Fixpoint remove_chars (p : ascii -> bool) (s : string) : string :=
  match s with
  | EmptyString => EmptyString
  | String c rest =>
      if p c then remove_chars p rest else String c (remove_chars p rest)
  end.

(** [s.replace(old, new)] for one-character [old] and [new]. *)
Fixpoint replace_char (old new : ascii) (s : string) : string :=
  match s with
  | EmptyString => EmptyString
  | String c rest =>
      String (if Ascii.eqb c old then new else c) (replace_char old new rest)
  end.

(** The longest prefix without a character satisfying [p], and the rest. *)
Fixpoint break_at (p : ascii -> bool) (s : string) : string * string :=
  match s with
  | EmptyString => (EmptyString, EmptyString)
  | String c rest =>
      if p c then (EmptyString, s)
      else let '(h, t) := break_at p rest in (String c h, t)
  end.

(** [s[n:]]. *)
Fixpoint drop (n : nat) (s : string) : string :=
  match n, s with
  | O, _ => s
  | S _, EmptyString => EmptyString
  | S m, String _ rest => drop m rest
  end.

Definition is_upper (c : ascii) : bool := (65 <=? ord c)%nat && (ord c <=? 90)%nat.
Definition is_lower (c : ascii) : bool := (97 <=? ord c)%nat && (ord c <=? 122)%nat.
Definition is_digit (c : ascii) : bool := (48 <=? ord c)%nat && (ord c <=? 57)%nat.

(** [c.isascii() and c.isalpha()]. *)
Definition is_ascii_alpha (c : ascii) : bool := is_upper c || is_lower c.

(** [c.isascii()] on a byte of the encoding. *)
Definition is_ascii (c : ascii) : bool := (ord c <? 128)%nat.

Fixpoint isascii (s : string) : bool :=
  match s with
  | EmptyString => true
  | String c rest => is_ascii c && isascii rest
  end.

Fixpoint forall_chars (p : ascii -> bool) (s : string) : bool :=
  match s with
  | EmptyString => true
  | String c rest => p c && forall_chars p rest
  end.

Definition lower_char (c : ascii) : ascii :=
  if is_upper c then ascii_of_nat (ord c + 32) else c.

(** [s.lower()], used by the library on ASCII scheme names only. *)
Fixpoint lower (s : string) : string :=
  match s with
  | EmptyString => EmptyString
  | String c rest => String (lower_char c) (lower rest)
  end.

(** [not s]. *)
Definition is_empty (s : string) : bool :=
  match s with EmptyString => true | _ => false end.

End PyStr.

(* ===================================================================== *)
(** * Python values, exceptions and results *)
(* ===================================================================== *)

Module Py.

(** Exception classes the program can meet.  [LibraryError] stands for
    the classes of the transcript library, which the program never tells
    apart. *)
Inductive exc_class : Type :=
| Exception
| ValueError
| TypeError
| AttributeError
| IndexError
| KeyError
| HTTPException
| BadRequest
| NotFound
| MethodNotAllowed
| UnsupportedMediaType
| TooManyRequests
| RateLimitExceeded
| InternalServerError
| LibraryError (name : string).

(** An exception object: its class, [str(e)], and for werkzeug's HTTP
    exceptions the status code. *)
Record exn : Type := mk_exn {
  exn_class : exc_class;
  exn_str : string;
  exn_code : option nat
}.

Definition raise_ (c : exc_class) (msg : string) : exn :=
  {| exn_class := c; exn_str := msg; exn_code := None |}.

(** The result of a pure library call.  [OutOfModel] marks the inputs on
    which the library consults code that is not part of this development
    (the [ipaddress] module, for a well-placed host in brackets): nothing
    is claimed about them. *)
Inductive pyres (A : Type) : Type :=
| Ok (a : A)
| Raise (e : exn)
| OutOfModel.
Arguments Ok {A} a.
Arguments Raise {A} e.
Arguments OutOfModel {A}.

#[export] Instance pyres_ret : MRet pyres := fun _ a => Ok a.
#[export] Instance pyres_bind : MBind pyres := fun _ _ f m =>
  match m with
  | Ok a => f a
  | Raise e => Raise e
  | OutOfModel => OutOfModel
  end.
#[export] Instance pyres_fmap : FMap pyres := fun _ _ f m =>
  match m with
  | Ok a => Ok (f a)
  | Raise e => Raise e
  | OutOfModel => OutOfModel
  end.

End Py.

(* ===================================================================== *)
(** * urllib.parse *)
(* ===================================================================== *)

Module Urllib.
Import PyStr Py.

(** The named tuples [SplitResult] and [ParseResult]. *)
Record SplitResult : Type := mk_SplitResult {
  sr_scheme : string;
  sr_netloc : string;
  sr_path : string;
  sr_query : string;
  sr_fragment : string
}.

Record ParseResult : Type := mk_ParseResult {
  scheme : string;
  netloc : string;
  path : string;
  params : string;
  query : string;
  fragment : string
}.

Definition uses_params : list string :=
  [""; "ftp"; "hdl"; "prospero"; "http"; "imap"; "https"; "shttp"; "rtsp";
   "rtspu"; "sip"; "sips"; "mms"; "sftp"; "tel"].

Definition scheme_chars : string :=
  "abcdefghijklmnopqrstuvwxyzABCDEFGHIJKLMNOPQRSTUVWXYZ0123456789+-.".

(** [_WHATWG_C0_CONTROL_OR_SPACE]: the characters U+0000 to U+0020. *)
Definition is_c0_control_or_space (c : ascii) : bool := (ord c <=? 32)%nat.

(** [_UNSAFE_URL_BYTES_TO_REMOVE]: tab, carriage return, line feed. *)
Definition is_unsafe_url_byte (c : ascii) : bool :=
  (ord c =? 9)%nat || (ord c =? 13)%nat || (ord c =? 10)%nat.

(** The scheme test of [urlsplit]: [i = url.find(':')], a first character
    that is an ASCII letter, and only scheme characters before the
    colon. *)
Definition split_scheme (url : string) : string * string :=
  match partition ":" url with
  | (String c0 pre', Some rest) =>
      if is_ascii_alpha c0
         && forall_chars (fun c => char_in c scheme_chars) (String c0 pre')
      then (lower (String c0 pre'), rest)
      else (EmptyString, url)
  | _ => (EmptyString, url)
  end.

(** [_splitnetloc(url, 2)]: up to the first of [/], [?], [#]. *)
Definition _splitnetloc (url : string) : string * string :=
  break_at (fun c => char_in c "/?#") (drop 2 url).

Definition bytes (l : list nat) : string :=
  string_of_list_ascii (map ascii_of_nat l).

(** The code points whose NFKC form contains one of [/ ? # @ :]
    (Unicode 14.0, the database of CPython 3.11), UTF-8 encoded.  No
    canonical composition starts from one of these five characters, so
    normalising a netloc brings one in exactly when the netloc holds
    one of these code points. *)
Definition nfkc_delimiter_sources : list string :=
  map bytes
    [ [226; 129; 135]; [226; 129; 136]; [226; 129; 137];
      [226; 132; 128]; [226; 132; 129]; [226; 132; 133]; [226; 132; 134];
      [226; 169; 180];
      [239; 184; 147]; [239; 184; 150];
      [239; 185; 149]; [239; 185; 150]; [239; 185; 159]; [239; 185; 171];
      [239; 188; 131]; [239; 188; 143]; [239; 188; 154]; [239; 188; 159];
      [239; 188; 160] ].

Definition _checknetloc (netloc : string) : pyres unit :=
  if is_empty netloc || isascii netloc then Ok tt
  else if existsb (fun src => contains src netloc) nfkc_delimiter_sources
  then Raise (raise_ ValueError
                ("netloc '" +:+ netloc +:+
                 "' contains invalid characters under NFKC normalization"))
  else Ok tt.

(** [_check_bracketed_host]: the text between the brackets is handed to
    the [ipaddress] module, which is outside this development. *)
Definition _check_bracketed_host (hostname : string) : pyres unit :=
  OutOfModel.

(** [s.rpartition(sep)[2]]. *)
Definition after_last (sep : ascii) (s : string) : string :=
  match rpartition sep s with
  | Some (_, t) => t
  | None => s
  end.

(** [_check_bracketed_netloc]: nothing may stand before the bracket, and
    after it only a port. *)
Definition _check_bracketed_netloc (netloc : string) : pyres unit :=
  let hostname_and_port := after_last "@" netloc in
  match partition "[" hostname_and_port with
  | (before_bracket, Some bracketed) =>
      if negb (is_empty before_bracket)
      then Raise (raise_ ValueError "Invalid IPv6 URL")
      else
        let '(hostname, port) := partition "]" bracketed in
        match port with
        | Some (String c rest) =>
            if Ascii.eqb c ":" then _check_bracketed_host hostname
            else Raise (raise_ ValueError "Invalid IPv6 URL")
        | _ => _check_bracketed_host hostname
        end
  | (hostname_and_port, None) =>
      _check_bracketed_host (fst (partition ":" hostname_and_port))
  end.

(** [urlsplit(url)] with the default [scheme=''] and
    [allow_fragments=True]. *)
Definition urlsplit (url : string) : pyres SplitResult :=
  let url := lstrip is_c0_control_or_space url in
  let url := remove_chars is_unsafe_url_byte url in
  let '(scheme, url) := split_scheme url in
  '(netloc, url) ←
    (if String.prefix "//" url then
       let '(netloc, url) := _splitnetloc url in
       if (has_char "[" netloc && negb (has_char "]" netloc))
          || (has_char "]" netloc && negb (has_char "[" netloc))
       then Raise (raise_ ValueError "Invalid IPv6 URL")
       else
         _ ← (if has_char "[" netloc && has_char "]" netloc
              then _check_bracketed_netloc netloc else Ok tt);
         Ok (netloc, url)
     else Ok (EmptyString, url));
  let '(url, fragment) :=
    if has_char "#" url
    then match partition "#" url with
         | (h, Some t) => (h, t)
         | (h, None) => (h, EmptyString)
         end
    else (url, EmptyString) in
  let '(url, query) :=
    if has_char "?" url
    then match partition "?" url with
         | (h, Some t) => (h, t)
         | (h, None) => (h, EmptyString)
         end
    else (url, EmptyString) in
  _ ← _checknetloc netloc;
  Ok (mk_SplitResult scheme netloc url query fragment).

(** [_splitparams(url)], called when [';' in url]. *)
Definition _splitparams (url : string) : string * string :=
  match rpartition "/" url with
  | Some (dir, last_segment) =>
      match partition ";" last_segment with
      | (_, None) => (url, EmptyString)
      | (h, Some t) => (dir +:+ "/" +:+ h, t)
      end
  | None =>
      match partition ";" url with
      | (h, Some t) => (h, t)
      | (h, None) => (h, EmptyString)
      end
  end.

(** [urlparse(url)]. *)
Definition urlparse (url : string) : pyres ParseResult :=
  splitresult ← urlsplit url;
  let '(mk_SplitResult scheme netloc url query fragment) := splitresult in
  let '(url, params) :=
    if bool_decide (scheme ∈ uses_params) && has_char ";" url
    then _splitparams url
    else (url, EmptyString) in
  Ok (mk_ParseResult scheme netloc url params query fragment).

(** [_hostinfo] of a parse result: the host and the port of the network
    location.  The host is what follows the user information, up to the
    port or between the brackets; [hostname] is this host in lower
    case. *)
Definition _hostinfo (netloc : string) : string * option string :=
  let hostinfo := after_last "@" netloc in
  let '(hostname, port) :=
    match partition "[" hostinfo with
    | (_, Some bracketed) =>
        let '(hostname, port) := partition "]" bracketed in
        (hostname,
         default EmptyString (snd (partition ":" (default EmptyString port))))
    | (_, None) =>
        let '(hostname, port) := partition ":" hostinfo in
        (hostname, default EmptyString port)
    end in
  (hostname, if is_empty port then None else Some port).

(** ** Percent-decoding *)

Definition hexval (c : ascii) : option nat :=
  if is_digit c then Some (ord c - 48)
  else if (65 <=? ord c)%nat && (ord c <=? 70)%nat then Some (ord c - 55)
  else if (97 <=? ord c)%nat && (ord c <=? 102)%nat then Some (ord c - 87)
  else None.

(** One element of [bits[1:]] in [unquote_to_bytes]: the text after a
    percent sign. *)
Definition unquote_item (item : string) : string :=
  match item with
  | String a (String b rest) =>
      match hexval a, hexval b with
      | Some x, Some y => String (ascii_of_nat (16 * x + y)) rest
      | _, _ => String "%" item
      end
  | _ => String "%" item
  end.

Definition unquote_to_bytes (s : string) : string :=
  match split "%" s with
  | [] => s
  | first :: items => first +:+ String.concat "" (map unquote_item items)
  end.

Definition is_continuation (c : ascii) : bool :=
  (128 <=? ord c)%nat && (ord c <=? 191)%nat.

(** The second byte a lead byte admits (no overlong forms, no
    surrogates, nothing above U+10FFFF). *)
Definition second_byte_ok (b0 b1 : ascii) : bool :=
  let n0 := ord b0 in
  let n1 := ord b1 in
  if (n0 =? 224)%nat then (160 <=? n1)%nat && (n1 <=? 191)%nat
  else if (n0 =? 237)%nat then (128 <=? n1)%nat && (n1 <=? 159)%nat
  else if (n0 =? 240)%nat then (144 <=? n1)%nat && (n1 <=? 191)%nat
  else if (n0 =? 244)%nat then (128 <=? n1)%nat && (n1 <=? 143)%nat
  else is_continuation b1.

(** U+FFFD REPLACEMENT CHARACTER. *)
Definition replacement : string := bytes [239; 191; 189].

(** [bs.decode('utf-8', 'replace')], the result again in UTF-8: well
    formed sequences are kept, every maximal ill-formed prefix of a
    sequence becomes U+FFFD. *)
Fixpoint decode_replace (bs : string) : string :=
  match bs with
  | EmptyString => EmptyString
  | String b0 r0 =>
      let n0 := ord b0 in
      if (n0 <? 128)%nat then String b0 (decode_replace r0)
      else if (194 <=? n0)%nat && (n0 <=? 223)%nat then
        match r0 with
        | String b1 r1 =>
            if is_continuation b1
            then String b0 (String b1 (decode_replace r1))
            else replacement +:+ decode_replace r0
        | EmptyString => replacement
        end
      else if (224 <=? n0)%nat && (n0 <=? 239)%nat then
        match r0 with
        | String b1 r1 =>
            if second_byte_ok b0 b1 then
              match r1 with
              | String b2 r2 =>
                  if is_continuation b2
                  then String b0 (String b1 (String b2 (decode_replace r2)))
                  else replacement +:+ decode_replace r1
              | EmptyString => replacement
              end
            else replacement +:+ decode_replace r0
        | EmptyString => replacement
        end
      else if (240 <=? n0)%nat && (n0 <=? 244)%nat then
        match r0 with
        | String b1 r1 =>
            if second_byte_ok b0 b1 then
              match r1 with
              | String b2 r2 =>
                  if is_continuation b2 then
                    match r2 with
                    | String b3 r3 =>
                        if is_continuation b3
                        then String b0 (String b1 (String b2
                               (String b3 (decode_replace r3))))
                        else replacement +:+ decode_replace r2
                    | EmptyString => replacement
                    end
                  else replacement +:+ decode_replace r1
              | EmptyString => replacement
              end
            else replacement +:+ decode_replace r0
        | EmptyString => replacement
        end
      else replacement +:+ decode_replace r0
  end.

(** The loop of [unquote] over [_asciire.split(string)]: every maximal
    run of ASCII characters is percent-decoded and decoded from UTF-8,
    the characters in between are kept. *)
Fixpoint unquote_runs (run s : string) : string :=
  match s with
  | EmptyString => decode_replace (unquote_to_bytes run)
  | String c rest =>
      if is_ascii c then unquote_runs (run +:+ String c EmptyString) rest
      else decode_replace (unquote_to_bytes run)
           +:+ String c (unquote_runs EmptyString rest)
  end.

(** [unquote(string)] with the default [encoding='utf-8'] and
    [errors='replace']. *)
Definition unquote (s : string) : string :=
  if negb (has_char "%" s) then s else unquote_runs EmptyString s.

(** [s.replace('+', ' ')] then [unquote], the decoding [parse_qsl]
    applies to a name and to a value ([unquote_plus]). *)
Definition unquote_plus (s : string) : string :=
  unquote (replace_char "+" " " s).

(** ** Query strings *)

(** The body of the loop of [parse_qsl] for one field, with the default
    [keep_blank_values=False] and [strict_parsing=False]. *)
Definition parse_field (name_value : string) : list (string * string) :=
  if is_empty name_value then []
  else match split1 "=" name_value with
       | [n; v] =>
           if negb (is_empty v)
           then [(unquote_plus n, unquote_plus v)]
           else []
       | _ => []
       end.

(** [parse_qsl(qs)] with the default [separator='&']. *)
Definition parse_qsl (qs : string) : list (string * string) :=
  let query_args := if is_empty qs then [] else split "&" qs in
  flat_map parse_field query_args.

(** The values of the pairs named [name], in the order of the pairs. *)
Fixpoint values_named (name : string) (pairs : list (string * string))
    : list string :=
  match pairs with
  | [] => []
  | (n, v) :: rest =>
      if String.eqb n name then v :: values_named name rest
      else values_named name rest
  end.

(** The loop of [parse_qs] over the pairs. *)
Fixpoint collect (pairs : list (string * string))
    (parsed_result : gmap string (list string)) : gmap string (list string) :=
  match pairs with
  | [] => parsed_result
  | (name, value) :: rest =>
      match parsed_result !! name with
      | Some values => collect rest (<[name := values ++ [value]]> parsed_result)
      | None => collect rest (<[name := [value]]> parsed_result)
      end
  end.

(** [parse_qs(qs)]. *)
Definition parse_qs (qs : string) : gmap string (list string) :=
  collect (parse_qsl qs) ∅.

End Urllib.

(* ===================================================================== *)
(** * JSON documents as Python values *)
(* ===================================================================== *)

Module PyVal.
Import PyStr Py.

(** What [json.loads] builds and [jsonify] serialises.  A [dict] with
    [str] keys is an association list read at its first match. *)
#[local] Set Warnings "-register-all".
Inductive pyval : Type :=
| PNone
| PBool (b : bool)
| PInt (z : Z)
| PFloat (f : spec_float)
| PStr (s : string)
| PList (l : list pyval)
| PDict (d : list (string * pyval)).

(** [type(v).__name__]. *)
Definition type_name (v : pyval) : string :=
  match v with
  | PNone => "NoneType"
  | PBool _ => "bool"
  | PInt _ => "int"
  | PFloat _ => "float"
  | PStr _ => "str"
  | PList _ => "list"
  | PDict _ => "dict"
  end.

(** [bool(v)]. *)
Definition truthy (v : pyval) : bool :=
  match v with
  | PNone => false
  | PBool b => b
  | PInt z => negb (z =? 0)%Z
  | PFloat (S754_zero _) => false
  | PFloat _ => true
  | PStr s => negb (is_empty s)
  | PList l => match l with [] => false | _ => true end
  | PDict d => match d with [] => false | _ => true end
  end.

Fixpoint dict_get (d : list (string * pyval)) (key : string) : option pyval :=
  match d with
  | [] => None
  | (k, v) :: rest => if String.eqb k key then Some v else dict_get rest key
  end.

(** [s == v] for a [str] [s]. *)
Definition str_eq (s : string) (v : pyval) : bool :=
  match v with
  | PStr t => String.eqb s t
  | _ => false
  end.

(** [s in v] for a [str] [s]: substring of a [str], element of a [list],
    key of a [dict]; the other types are not iterable. *)
Definition contains_str (s : string) (v : pyval) : pyres bool :=
  match v with
  | PStr t => Ok (contains s t)
  | PList l => Ok (existsb (str_eq s) l)
  | PDict d => Ok (match dict_get d s with Some _ => true | None => false end)
  | _ => Raise (raise_ TypeError
                  ("argument of type '" +:+ type_name v +:+ "' is not iterable"))
  end.

(** [v[s]] for a [str] [s]. *)
Definition getitem_str (v : pyval) (s : string) : pyres pyval :=
  match v with
  | PDict d =>
      match dict_get d s with
      | Some x => Ok x
      | None => Raise (raise_ KeyError ("'" +:+ s +:+ "'"))
      end
  | PStr _ =>
      Raise (raise_ TypeError "string indices must be integers, not 'str'")
  | PList _ =>
      Raise (raise_ TypeError "list indices must be integers or slices, not str")
  | _ =>
      Raise (raise_ TypeError
               ("'" +:+ type_name v +:+ "' object is not subscriptable"))
  end.

(** [l[0]] and [l[-1]]. *)
Definition first_item {A} (l : list A) : pyres A :=
  match l with
  | x :: _ => Ok x
  | [] => Raise (raise_ IndexError "list index out of range")
  end.

Definition last_item {A} (l : list A) : pyres A :=
  match last l with
  | Some x => Ok x
  | None => Raise (raise_ IndexError "list index out of range")
  end.

End PyVal.

(* ===================================================================== *)
(** * Effects: logging and the transcript library *)
(* ===================================================================== *)

Module Effects.
Import Py PyVal.

(** What [YouTubeTranscriptApi.get_transcript] does on one call: the
    transcript, or an exception. *)
Inductive answer : Type :=
| Transcript (t : pyval)
| Failure (e : exn).

(** A computation of the server: a tree whose nodes are the calls that
    leave the program, [logger.error] and the transcript library, the
    latter branching on what the library answers. *)
Inductive io (A : Type) : Type :=
| Ret (a : A)
| Throw (e : exn)
| Undetermined
| LoggerError (msg : string) (k : io A)
| FetchTranscript (video_id : string) (k : answer -> io A).
Arguments Ret {A} a.
Arguments Throw {A} e.
Arguments Undetermined {A}.
Arguments LoggerError {A} msg k.
Arguments FetchTranscript {A} video_id k.

Fixpoint bind {A B} (m : io A) (f : A -> io B) : io B :=
  match m with
  | Ret a => f a
  | Throw e => Throw e
  | Undetermined => Undetermined
  | LoggerError msg k => LoggerError msg (bind k f)
  | FetchTranscript video_id k => FetchTranscript video_id (fun r => bind (k r) f)
  end.

#[export] Instance io_ret : MRet io := fun _ a => Ret a.
#[export] Instance io_bind : MBind io := fun _ _ f m => bind m f.

(** [try: m except Exception as e: h e]. *)
Fixpoint try_except {A} (m : io A) (h : exn -> io A) : io A :=
  match m with
  | Ret a => Ret a
  | Throw e => h e
  | Undetermined => Undetermined
  | LoggerError msg k => LoggerError msg (try_except k h)
  | FetchTranscript video_id k =>
      FetchTranscript video_id (fun r => try_except (k r) h)
  end.

Definition lift {A} (r : pyres A) : io A :=
  match r with
  | Ok a => Ret a
  | Raise e => Throw e
  | OutOfModel => Undetermined
  end.

(** What an observer of one run sees. *)
Inductive event : Type :=
| Logged (msg : string)
| Fetched (video_id : string).

(** One run against a given behaviour of the transcript library. *)
Fixpoint run {A} (library : string -> answer) (m : io A)
    : list event * pyres A :=
  match m with
  | Ret a => ([], Ok a)
  | Throw e => ([], Raise e)
  | Undetermined => ([], OutOfModel)
  | LoggerError msg k =>
      let '(evs, r) := run library k in (Logged msg :: evs, r)
  | FetchTranscript video_id k =>
      let '(evs, r) := run library (k (library video_id)) in
      (Fetched video_id :: evs, r)
  end.

(** The computation never reaches the transcript library, whatever the
    library would answer. *)
Fixpoint never_fetches {A} (m : io A) : Prop :=
  match m with
  | FetchTranscript _ _ => False
  | LoggerError _ k => never_fetches k
  | _ => True
  end.

(** [a] is a value the computation can return. *)
Inductive returns {A} : io A -> A -> Prop :=
| returns_ret a : returns (Ret a) a
| returns_log msg k a : returns k a -> returns (LoggerError msg k) a
| returns_fetch video_id k r a :
    returns (k r) a -> returns (FetchTranscript video_id k) a.

(** Every value the computation can return satisfies [P]. *)
Fixpoint all_returns {A} (P : A -> Prop) (m : io A) : Prop :=
  match m with
  | Ret a => P a
  | Throw _ | Undetermined => True
  | LoggerError _ k => all_returns P k
  | FetchTranscript _ k => forall r, all_returns P (k r)
  end.

(** No exception escapes the computation. *)
Fixpoint never_throws {A} (m : io A) : Prop :=
  match m with
  | Throw _ => False
  | Ret _ | Undetermined => True
  | LoggerError _ k => never_throws k
  | FetchTranscript _ k => forall r, never_throws (k r)
  end.

(** The computation lets an exception escape. *)
Inductive throws {A} : io A -> exn -> Prop :=
| throws_throw e : throws (Throw e) e
| throws_log msg k e : throws k e -> throws (LoggerError msg k) e
| throws_fetch video_id k r e :
    throws (k r) e -> throws (FetchTranscript video_id k) e.

End Effects.

(* ===================================================================== *)
(** * The resolver: lines 75 to 83 of [get_video_transcript] *)
(* ===================================================================== *)

Module Resolver.
Import PyStr Py PyVal Urllib.

Definition invalid_youtube_url : exn := raise_ ValueError "Invalid YouTube URL".

(** The extraction of the video identifier from a [str]. *)
Definition resolve (url : string) : pyres string :=
  parsed_url ← urlparse url;
  video_id ←
    (if contains "youtube.com" (netloc parsed_url)
     then
       let query_params := parse_qs (query parsed_url) in
       first_item (default [None] (map Some <$> query_params !! "v"))
     else
       Some <$> last_item (split "/" (path parsed_url)));
  match video_id with
  | None | Some EmptyString => Raise invalid_youtube_url
  | Some id => Ok id
  end.

(** The same lines for any value the request body may hold under
    ["url"].  [urlparse] decodes an argument that is not a [str]: a
    true one has no [decode] method, a false one is read as empty
    [bytes], and the [str in bytes] test that follows is a type
    error. *)
Definition resolve_value (url : pyval) : pyres string :=
  match url with
  | PStr s => resolve s
  | v =>
      if truthy v
      then Raise (raise_ AttributeError
                    ("'" +:+ type_name v +:+ "' object has no attribute 'decode'"))
      else Raise (raise_ TypeError "a bytes-like object is required, not 'str'")
  end.

(** The characters video identifiers are made of: letters, digits, [-]
    and [_]. *)
Definition is_id_char (c : ascii) : bool :=
  is_upper c || is_lower c || is_digit c || Ascii.eqb c "-" || Ascii.eqb c "_".

End Resolver.

(* ===================================================================== *)
(** * werkzeug: responses and their headers *)
(* ===================================================================== *)

Module Werkzeug.
Import PyStr Py PyVal.

(** [werkzeug.datastructures.Headers]: an ordered list of pairs whose
    keys compare without regard to case.  Header names are ASCII. *)
Definition Headers : Type := list (string * string).

Definition same_key (key k : string) : bool := String.eqb (lower k) (lower key).

(** [headers[key] = value], that is [Headers.set]: the first entry with
    this key is replaced, the later ones are removed; without such an
    entry the pair is appended. *)
Fixpoint set (key value : string) (h : Headers) : Headers :=
  match h with
  | [] => [(key, value)]
  | (k, v) :: rest =>
      if same_key key k
      then (key, value) :: List.filter (fun kv => negb (same_key key (fst kv))) rest
      else (k, v) :: set key value rest
  end.

(** [headers.add(key, value)]. *)
Definition add (key value : string) (h : Headers) : Headers := h ++ [(key, value)].

(** [headers.getlist(key)]. *)
Definition getlist (key : string) (h : Headers) : list string :=
  map snd (List.filter (fun kv => same_key key (fst kv)) h).

Inductive body : Type :=
| Json (document : pyval)
| Text (data : string)
| ErrorPage (e : exn).

Record Response : Type := mk_Response {
  status : nat;
  headers : Headers;
  data : body
}.

Definition with_headers (h : Headers) (r : Response) : Response :=
  {| status := status r; headers := h; data := data r |}.

(** [(response, code)] as a view's return value. *)
Definition with_status (code : nat) (r : Response) : Response :=
  {| status := code; headers := headers r; data := data r |}.

(** [jsonify(document)].  Of the headers only the content type is kept
    ([Content-Length] is left out), and a document keeps the order in
    which the source writes its keys, which the serialised body need
    not. *)
Definition jsonify (document : pyval) : Response :=
  {| status := 200;
     headers := [("Content-Type", "application/json")];
     data := Json document |}.

(** The response made from a [str]. *)
Definition text_response (s : string) : Response :=
  {| status := 200;
     headers := [("Content-Type", "text/html; charset=utf-8")];
     data := Text s |}.

(** [HTTPException.get_response]: the library's own error page. *)
Definition error_page (code : nat) (e : exn) : Response :=
  {| status := code;
     headers := [("Content-Type", "text/html; charset=utf-8")];
     data := ErrorPage e |}.

(** An [HTTPException]; [str(e)] is the code and name, a colon, and the
    description. *)
Definition http_exception (c : exc_class) (code : nat)
    (code_and_name description : string) : exn :=
  {| exn_class := c;
     exn_str := code_and_name +:+ ": " +:+ description;
     exn_code := Some code |}.

Definition not_found : exn :=
  http_exception NotFound 404 "404 Not Found"
    ("The requested URL was not found on the server. If you entered the URL "
     +:+ "manually please check your spelling and try again.").

Definition method_not_allowed : exn :=
  http_exception MethodNotAllowed 405 "405 Method Not Allowed"
    "The method is not allowed for the requested URL.".

End Werkzeug.

(* ===================================================================== *)
(** * flask-limiter: fixed-window counters in memory *)
(* ===================================================================== *)

Module Limits.
Import Py Werkzeug.

(** A parsed limit such as ["10 per minute"]: the amount, the length of
    the window in seconds and [str(limit)]. *)
Record RateLimitItem : Type := mk_limit {
  amount : nat;
  window : Z;
  description : string
}.

Definition per_minute (n : nat) (text : string) : RateLimitItem := mk_limit n 60 text.
Definition per_hour (n : nat) (text : string) : RateLimitItem := mk_limit n 3600 text.
Definition per_day (n : nat) (text : string) : RateLimitItem := mk_limit n 86400 text.

(** The key of a counter: the client address given by
    [get_remote_address], the scope (the view), and the limit. *)
Definition counter_key : Type := string * string * (nat * Z).

Definition key_for (address scope : string) (item : RateLimitItem) : counter_key :=
  (address, scope, (amount item, window item)).

(** [MemoryStorage]: per key the count and the time the window ends. *)
Definition storage : Type := gmap counter_key (nat * Z).

(** [MemoryStorage.get] then the increment of [MemoryStorage.incr]: an
    expired counter is dropped, the counter is incremented, and a
    counter that is new gets its expiry. *)
Definition incr (now : Z) (key : counter_key) (expiry : Z) (st : storage)
    : nat * storage :=
  match st !! key with
  | Some (count, expires) =>
      if (expires <=? now)%Z
      then (1, <[key := (1, (now + expiry)%Z)]> st)
      else (S count, <[key := (S count, expires)]> st)
  | None => (1, <[key := (1, (now + expiry)%Z)]> st)
  end.

(** [FixedWindowRateLimiter.hit]. *)
Definition hit (now : Z) (address scope : string) (item : RateLimitItem)
    (st : storage) : bool * storage :=
  let '(count, st') := incr now (key_for address scope item) (window item) st in
  ((count <=? amount item)%nat, st').

Definition rate_limit_exceeded (item : RateLimitItem) : exn :=
  http_exception RateLimitExceeded 429 "429 Too Many Requests" (description item).

(** The loop over the limits of a view: each is hit in turn, the first
    one that is exceeded raises. *)
Fixpoint evaluate_limits (now : Z) (address scope : string)
    (limits : list RateLimitItem) (st : storage) : pyres unit * storage :=
  match limits with
  | [] => (Ok tt, st)
  | item :: rest =>
      let '(within, st') := hit now address scope item st in
      if within then evaluate_limits now address scope rest st'
      else (Raise (rate_limit_exceeded item), st')
  end.

End Limits.

(* ===================================================================== *)
(** * server.py *)
(* ===================================================================== *)

Module Server.
Import PyStr Py PyVal Effects Urllib Resolver Werkzeug Limits.

(** ** Requests *)

Inductive http_method : Type :=
| GET
| HEAD
| OPTIONS
| POST
| OtherMethod (name : string).

(** What [request.get_json()] does with the body: the parsed document,
    or the exception werkzeug raises for a body it does not read. *)
Inductive json_body : Type :=
| Parsed (document : pyval)
| Unreadable (e : exn).

Record request : Type := mk_request {
  method : http_method;
  req_path : string;
  remote_addr : option string;
  origin : option string;
  json : json_body
}.

(** What a view reads from its process: [time.time()] in seconds and
    [os.environ.get('ENVIRONMENT')].  Clock readings are whole
    seconds. *)
Record process : Type := mk_process {
  time_time : Z;
  ENVIRONMENT : option string
}.

Definition get_json (req : request) : io pyval :=
  match json req with
  | Parsed document => Ret document
  | Unreadable e => Throw e
  end.

(** [get_remote_address()]. *)
Definition get_remote_address (req : request) : string :=
  match remote_addr req with
  | Some (String c rest) => String c rest
  | _ => "127.0.0.1"
  end.

(** ** Lines 35 to 41: the security headers *)

Definition add_security_headers (response : Response) : Response :=
  let h := headers response in
  let h := set "X-Content-Type-Options" "nosniff" h in
  let h := set "X-Frame-Options" "DENY" h in
  let h := set "X-XSS-Protection" "1; mode=block" h in
  let h := set "Strict-Transport-Security" "max-age=31536000; includeSubDomains" h in
  with_headers h response.

(** ** Lines 44 to 50: the error handler *)

Definition handle_error (error : exn) : io Response :=
  LoggerError ("An error occurred: " +:+ exn_str error)
    (Ret (with_status 500
            (jsonify (PDict [("error", PStr (exn_str error));
                             ("status", PStr "error")])))).

(** ** Lines 52 to 71: the root and health views *)

Definition home : io Response :=
  Ret (jsonify
         (PDict [("status", PStr "Server is running");
                 ("endpoints", PDict [("transcript", PStr "/api/transcript");
                                      ("health", PStr "/health")]);
                 ("version", PStr "1.0.0")])).

(** The [float] nearest to a clock reading. *)
Definition float_of_Z (z : Z) : spec_float := binary_normalize 53 1024 z 0 false.

Definition health (p : process) : io Response :=
  Ret (jsonify
         (PDict [("status", PStr "healthy");
                 ("timestamp", PFloat (float_of_Z (time_time p)));
                 ("environment", PStr (default "development" (ENVIRONMENT p)));
                 ("service", PStr "youtube-transcript-api")])).

(** ** Lines 73 to 89 *)

Definition get_video_transcript (url : pyval) : io pyval :=
  try_except
    (video_id ← lift (resolve_value url);
     FetchTranscript video_id (fun r =>
       match r with
       | Transcript transcript => Ret transcript
       | Failure e => Throw e
       end))
    (fun e =>
       LoggerError ("Error fetching transcript: " +:+ exn_str e) (Throw e)).

(** ** Lines 91 to 105: the transcript view *)

Definition get_transcript (req : request) : io Response :=
  try_except
    (data ← get_json req;
     url_missing ←
       (if negb (truthy data) then Ret true
        else present ← lift (contains_str "url" data); Ret (negb present));
     if url_missing : bool
     then Ret (with_status 400 (jsonify (PDict [("error", PStr "URL is required")])))
     else
       url ← lift (getitem_str data "url");
       transcript ← get_video_transcript url;
       Ret (jsonify (PDict [("transcript", transcript)])))
    (fun e =>
       LoggerError ("Error in transcript endpoint: " +:+ exn_str e)
         (Ret (with_status 500 (jsonify (PDict [("error", PStr (exn_str e))]))))).

(** ** Lines 107 to 109 *)

Definition favicon : io Response := Ret (with_status 204 (text_response "")).

(** ** Flask: routing, hooks and error handlers *)

Inductive endpoint : Type :=
| EpHome
| EpHealth
| EpTranscript
| EpFavicon.

Definition endpoint_name (ep : endpoint) : string :=
  match ep with
  | EpHome => "home"
  | EpHealth => "health"
  | EpTranscript => "get_transcript"
  | EpFavicon => "favicon"
  end.

(** The rules registered by [@app.route]. *)
Definition url_map (path : string) : option endpoint :=
  if String.eqb path "/" then Some EpHome
  else if String.eqb path "/health" then Some EpHealth
  else if String.eqb path "/api/transcript" then Some EpTranscript
  else if String.eqb path "/favicon.ico" then Some EpFavicon
  else None.

(** The methods of a rule: the ones given to [route], [HEAD] with [GET],
    and the automatic [OPTIONS]. *)
Definition allows (ep : endpoint) (m : http_method) : bool :=
  match ep, m with
  | _, OPTIONS => true
  | EpTranscript, POST => true
  | EpTranscript, _ => false
  | _, (GET | HEAD) => true
  | _, _ => false
  end.

Definition allow_header (ep : endpoint) : string :=
  match ep with
  | EpTranscript => "OPTIONS, POST"
  | _ => "GET, HEAD, OPTIONS"
  end.

(** The match done when the request context is pushed; a failure is
    kept as [request.routing_exception]. *)
Definition match_request (req : request) : pyres endpoint :=
  match url_map (req_path req) with
  | None => Raise not_found
  | Some ep => if allows ep (method req) then Ok ep else Raise method_not_allowed
  end.

(** [default_limits=["200 per day", "50 per hour"]], in the order the
    limiter sorts them. *)
Definition default_limits : list RateLimitItem :=
  [per_hour 50 "50 per 1 hour"; per_day 200 "200 per 1 day"].

(** [@limiter.limit("10 per minute")] on [home]. *)
Definition home_limit : RateLimitItem := per_minute 10 "10 per 1 minute".

(** [@limiter.limit("100 per hour")] on [get_transcript]. *)
Definition transcript_limit : RateLimitItem := per_hour 100 "100 per 1 hour".

(** The limits of a view: those of its [@limiter.limit] decorator, which
    replace the default ones, or the default ones. *)
Definition limits_of (ep : endpoint) : list RateLimitItem :=
  match ep with
  | EpHome => [home_limit]
  | EpTranscript => [transcript_limit]
  | EpHealth | EpFavicon => default_limits
  end.

(** The limiter's [before_request] hook; a request that matched no rule
    has no endpoint and is not counted.  The automatic [OPTIONS]
    response is counted here for every view; flask-limiter counts it for
    the views under the default limits only, the limit of a decorated
    view being checked where the view is called. *)
Definition _check_request_limit (p : process) (st : storage) (req : request)
    : pyres unit * storage :=
  match match_request req with
  | Ok ep =>
      evaluate_limits (time_time p) (get_remote_address req)
        (endpoint_name ep) (limits_of ep) st
  | _ => (Ok tt, st)
  end.

Definition make_default_options_response (ep : endpoint) : Response :=
  with_headers (set "Allow" (allow_header ep) (headers (text_response "")))
    (text_response "").

Definition view (p : process) (req : request) (ep : endpoint) : io Response :=
  match ep with
  | EpHome => home
  | EpHealth => health p
  | EpTranscript => get_transcript req
  | EpFavicon => favicon
  end.

Definition dispatch_request (p : process) (req : request) : io Response :=
  ep ← lift (match_request req);
  match method req with
  | OPTIONS => Ret (make_default_options_response ep)
  | _ => view p req ep
  end.

(** The method resolution order of an exception class. *)
Definition mro (c : exc_class) : list exc_class :=
  match c with
  | Exception => [Exception]
  | HTTPException => [HTTPException; Exception]
  | BadRequest | NotFound | MethodNotAllowed | UnsupportedMediaType
  | TooManyRequests | InternalServerError => [c; HTTPException; Exception]
  | RateLimitExceeded =>
      [RateLimitExceeded; TooManyRequests; HTTPException; Exception]
  | _ => [c; Exception]
  end.

#[export] Instance exc_class_eq_dec : EqDecision exc_class.
Proof. solve_decision. Defined.

(** [app.error_handler_spec[None]]: by status code, then by class.  The
    only registration is [@app.errorhandler(Exception)]. *)
Definition error_handler_spec
    : list (option nat * exc_class * (exn -> io Response)) :=
  [(None, Exception, handle_error)].

Fixpoint handler_in (spec : list (option nat * exc_class * (exn -> io Response)))
    (code : option nat) (c : exc_class) : option (exn -> io Response) :=
  match spec with
  | [] => None
  | (code', c', handler) :: rest =>
      if bool_decide (code' = code) && bool_decide (c' = c)
      then Some handler
      else handler_in rest code c
  end.

Definition lookup_handler (code : option nat) (c : exc_class)
    : option (exn -> io Response) :=
  handler_in error_handler_spec code c.

Fixpoint first_some {A B} (f : A -> option B) (l : list A) : option B :=
  match l with
  | [] => None
  | x :: rest =>
      match f x with
      | Some y => Some y
      | None => first_some f rest
      end
  end.

(** [_find_error_handler]: the handlers for the exception's code are
    searched before the ones registered by class alone, each along the
    method resolution order. *)
Definition _find_error_handler (e : exn) : option (exn -> io Response) :=
  let codes :=
    match exn_code e with
    | Some code => [Some code; None]
    | None => [None]
    end in
  first_some (fun code => first_some (lookup_handler code) (mro (exn_class e)))
    codes.

Definition handle_http_exception (e : exn) (code : nat) : io Response :=
  match _find_error_handler e with
  | None => Ret (error_page code e)
  | Some handler => handler e
  end.

Definition handle_user_exception (e : exn) : io Response :=
  match exn_code e with
  | Some code => handle_http_exception e code
  | None =>
      match _find_error_handler e with
      | None => Throw e
      | Some handler => handler e
      end
  end.

(** flask-cors, with [CORS(app)]'s defaults: the request's origin is
    echoed, a request without one gets the wildcard. *)
Definition cors_after_request (req : request) (resp : Response) : Response :=
  match getlist "Access-Control-Allow-Origin" (headers resp) with
  | _ :: _ => resp
  | [] =>
      match origin req with
      | Some (String c rest) =>
          with_headers
            (add "Vary" "Origin"
               (add "Access-Control-Allow-Origin" (String c rest) (headers resp)))
            resp
      | _ =>
          with_headers (add "Access-Control-Allow-Origin" "*" (headers resp)) resp
      end
  end.

(** [process_response]: the [after_request] functions, last registered
    first. *)
Definition process_response (req : request) (resp : Response) : Response :=
  cors_after_request req (add_security_headers resp).

Definition internal_server_error : exn :=
  http_exception InternalServerError 500 "500 Internal Server Error"
    ("The server encountered an internal error and was unable to complete "
     +:+ "your request. Either the server is overloaded or there is an error "
     +:+ "in the application.").

(** [handle_exception]: what is left to do with an exception no handler
    took. *)
Definition handle_exception (e : exn) : io Response :=
  match _find_error_handler internal_server_error with
  | None => Ret (error_page 500 internal_server_error)
  | Some handler => handler internal_server_error
  end.

(** [full_dispatch_request]: the hooks before the request, the view,
    the error handlers, the hooks after the request. *)
Definition full_dispatch_request (p : process) (req : request)
    (checked : pyres unit) : io Response :=
  rv ← try_except (_ ← lift checked; dispatch_request p req)
         handle_user_exception;
  Ret (process_response req rv).

(** [wsgi_app]; the counters keep what the limiter has written whatever
    happens next. *)
Definition wsgi_app (p : process) (st : storage) (req : request)
    : io Response * storage :=
  let '(checked, st') := _check_request_limit p st req in
  (try_except (full_dispatch_request p req checked)
     (fun e => rv ← handle_exception e; Ret (process_response req rv)),
   st').

(** The server at work: the requests are served one after the other,
    each with the state of the process at its time. *)
Fixpoint serve (st : storage) (arrivals : list (process * request))
    : list (io Response) :=
  match arrivals with
  | [] => []
  | (p, req) :: rest =>
      let '(response, st') := wsgi_app p st req in
      response :: serve st' rest
  end.

(** ** Lines 17 to 19 and 111 to 118: logging and the development server *)

Inductive logging_level : Type :=
| INFO
| DEBUG.

(** The [level] given to [logging.basicConfig]. *)
Definition basicConfig_level (p : process) : logging_level :=
  if bool_decide (ENVIRONMENT p = Some "production") then INFO else DEBUG.

(** The [debug] flag given to [app.run]. *)
Definition debug (p : process) : bool :=
  negb (bool_decide (ENVIRONMENT p = Some "production")).

End Server.

(* ===================================================================== *)
(** * Facts about the string methods *)
(* ===================================================================== *)

Module PyStrFacts.
Import PyStr.

#[local] Arguments String.append !_ _ / : simpl nomatch.

Lemma append_nil_r (s : string) : s +:+ "" = s.
Proof. induction s as [|c s IH]; simpl; [reflexivity | by rewrite IH]. Qed.

Lemma append_assoc (a b c : string) : (a +:+ b) +:+ c = a +:+ (b +:+ c).
Proof. induction a as [|x a IH]; simpl; [reflexivity | by rewrite IH]. Qed.

Lemma prefix_append (sub rest : string) : String.prefix sub (sub +:+ rest) = true.
Proof.
  induction sub as [|c sub IH]; simpl; [by destruct rest |].
  destruct (ascii_dec c c) as [_|ne]; [exact IH | by destruct ne].
Qed.

Lemma prefix_inv (sub s : string) :
  String.prefix sub s = true -> exists rest, s = sub +:+ rest.
Proof.
  revert s. induction sub as [|c sub IH]; intros s H.
  - by exists s.
  - destruct s as [|d s]; simpl in H; [discriminate |].
    destruct (ascii_dec c d) as [->|]; [| discriminate].
    destruct (IH s H) as [rest ->]. by exists rest.
Qed.

Lemma contains_unfold (sub s : string) :
  contains sub s =
  String.prefix sub s
  || match s with EmptyString => false | String _ rest => contains sub rest end.
Proof. by destruct s. Qed.

(** [contains] is the substring test. *)
Lemma contains_iff (sub s : string) :
  contains sub s = true <-> exists a b, s = a +:+ sub +:+ b.
Proof.
  split.
  - induction s as [|c s IH]; intros H; rewrite contains_unfold in H.
    + apply orb_true_iff in H as [H | H]; [| discriminate].
      apply prefix_inv in H as [rest ->]. by exists "", rest.
    + apply orb_true_iff in H as [H | H].
      * apply prefix_inv in H as [rest ->]. by exists "", rest.
      * destruct (IH H) as (a & b & ->). by exists (String c a), b.
  - intros (a & b & ->). induction a as [|c a IH]; simpl.
    + by rewrite contains_unfold, prefix_append.
    + rewrite IH. apply orb_true_r.
Qed.

Lemma has_char_append (c : ascii) (a b : string) :
  has_char c (a +:+ b) = has_char c a || has_char c b.
Proof. induction a as [|d a IH]; simpl; [reflexivity | by rewrite IH, orb_assoc]. Qed.

Lemma split_not_nil (sep : ascii) (s : string) : split sep s <> [].
Proof.
  induction s as [|c s IH]; simpl; [discriminate |].
  destruct (Ascii.eqb c sep); [discriminate |].
  by destruct (split sep s).
Qed.

(** A string without the separator is its own single field. *)
Lemma split_no_sep (sep : ascii) (s : string) :
  has_char sep s = false -> split sep s = [s].
Proof.
  induction s as [|c s IH]; simpl; [reflexivity |]; intros H.
  apply orb_false_iff in H as [Hc Hs]. rewrite Hc, (IH Hs). reflexivity.
Qed.

(** [(a + sep + b).split(sep) == a.split(sep) + b.split(sep)]. *)
Lemma split_append (sep : ascii) (a b : string) :
  split sep (a +:+ String sep b) = split sep a ++ split sep b.
Proof.
  induction a as [|c a IH]; simpl.
  - by rewrite Ascii.eqb_refl.
  - destruct (Ascii.eqb c sep); rewrite IH; [reflexivity |].
    pose proof (split_not_nil sep a). by destruct (split sep a).
Qed.

(** The last field is what follows the last separator. *)
Lemma last_split_after (sep : ascii) (a b : string) :
  has_char sep b = false -> last (split sep (a +:+ String sep b)) = Some b.
Proof.
  intros H. rewrite split_append, (split_no_sep _ _ H). apply last_snoc.
Qed.

Lemma partition_no_sep (sep : ascii) (a b : string) :
  has_char sep a = false -> partition sep (a +:+ String sep b) = (a, Some b).
Proof.
  induction a as [|c a IH]; simpl; intros H.
  - by rewrite Ascii.eqb_refl.
  - apply orb_false_iff in H as [Hc Ha]. rewrite Hc, (IH Ha). reflexivity.
Qed.

Lemma partition_no_char (sep : ascii) (s : string) :
  has_char sep s = false -> partition sep s = (s, None).
Proof.
  induction s as [|c s IH]; simpl; [reflexivity |]. intros H.
  apply orb_false_iff in H as [Hc Hs]. by rewrite Hc, (IH Hs).
Qed.

Lemma partition_append_no_sep (sep : ascii) (a b : string) :
  has_char sep a = false ->
  partition sep (a +:+ b) = (a +:+ fst (partition sep b), snd (partition sep b)).
Proof.
  induction a as [|c a IH]; simpl; intros H.
  - by destruct (partition sep b).
  - apply orb_false_iff in H as [Hc Ha]. rewrite Hc, (IH Ha). reflexivity.
Qed.

Lemma remove_chars_append (p : ascii -> bool) (a b : string) :
  remove_chars p (a +:+ b) = remove_chars p a +:+ remove_chars p b.
Proof.
  induction a as [|c a IH]; simpl; [reflexivity |].
  destruct (p c); simpl; by rewrite IH.
Qed.

End PyStrFacts.

(* ===================================================================== *)
(** * Facts about the query parser *)
(* ===================================================================== *)

Module UrllibFacts.
Import PyStr Py Urllib PyStrFacts.

#[local] Arguments String.append !_ _ / : simpl nomatch.

Lemma values_named_app name l1 l2 :
  values_named name (l1 ++ l2) = values_named name l1 ++ values_named name l2.
Proof.
  induction l1 as [|[n v] l1 IH]; simpl; [reflexivity |].
  destruct (String.eqb n name); simpl; by rewrite IH.
Qed.

Lemma values_named_absent name pairs :
  name ∉ map fst pairs -> values_named name pairs = [].
Proof.
  induction pairs as [|[n v] pairs IH]; simpl; intros H; [reflexivity |].
  apply not_elem_of_cons in H as [Hne H].
  destruct (String.eqb_spec n name) as [->|_]; [by destruct Hne | auto].
Qed.

(** The dictionary [parse_qs] builds: under each name the values of the
    pairs with that name, appended in their order to what was there. *)
Lemma collect_lookup pairs (m : gmap string (list string)) name :
  collect pairs m !! name =
  match m !! name, values_named name pairs with
  | Some vs, l => Some (vs ++ l)
  | None, [] => None
  | None, l => Some l
  end.
Proof.
  revert m. induction pairs as [|[n v] pairs IH]; intros m; simpl.
  - destruct (m !! name); [by rewrite app_nil_r | reflexivity].
  - destruct (String.eqb_spec n name) as [->|Hne].
    + destruct (m !! name) as [vs|] eqn:E; rewrite IH, lookup_insert_eq.
      * by rewrite <- app_assoc.
      * reflexivity.
    + destruct (m !! n) as [vs|] eqn:E; rewrite IH, lookup_insert_ne by done;
        reflexivity.
Qed.

Lemma parse_qs_lookup qs name :
  parse_qs qs !! name =
  match values_named name (parse_qsl qs) with
  | [] => None
  | l => Some l
  end.
Proof. unfold parse_qs. by rewrite collect_lookup, lookup_empty. Qed.

(** The guard on the empty query string changes nothing: its one
    field is empty and skipped. *)
Lemma parse_qsl_fields qs : parse_qsl qs = flat_map parse_field (split "&" qs).
Proof. by destruct qs. Qed.

(** A field [name=value] with a value is one pair, both sides decoded. *)
Lemma parse_field_pair name value :
  has_char "=" name = false -> value <> "" ->
  parse_field (name +:+ "=" +:+ value) = [(unquote_plus name, unquote_plus value)].
Proof.
  intros Hname Hvalue. unfold parse_field, split1.
  change (name +:+ "=" +:+ value) with (name +:+ String "=" value).
  rewrite (partition_no_sep "=" name value Hname).
  destruct name, value; simpl; try reflexivity; by destruct Hvalue.
Qed.

(** A field contributes a value to [name] only when it reads
    [n=v] with [n] decoding to [name] and [v] not empty. *)
Lemma parse_field_named name field :
  (forall n v, partition "=" field = (n, Some v) ->
               unquote_plus n = name -> v = "") ->
  values_named name (parse_field field) = [].
Proof.
  intros H. unfold parse_field, split1.
  destruct (is_empty field); [reflexivity |].
  destruct (partition "=" field) as [n [v|]] eqn:P; [| reflexivity].
  destruct v as [|c v]; [reflexivity |]. simpl.
  destruct (String.eqb_spec (unquote_plus n) name) as [E|_]; [| reflexivity].
  by specialize (H n (String c v) eq_refl E).
Qed.

Lemma values_named_fields name fields :
  (forall field, field ∈ fields ->
     forall n v, partition "=" field = (n, Some v) ->
                 unquote_plus n = name -> v = "") ->
  values_named name (flat_map parse_field fields) = [].
Proof.
  induction fields as [|f fields IH]; intros H; simpl; [reflexivity |].
  rewrite values_named_app, parse_field_named, IH; [reflexivity | |].
  - intros field Hin. apply H. by right.
  - apply H. by left.
Qed.

(** ** Decoding never empties a string *)

Lemma replacement_nonempty : replacement <> "".
Proof. discriminate. Qed.

Lemma replacement_append_nonempty s : replacement +:+ s <> "".
Proof. discriminate. Qed.

(** One case split of the decoder, without keeping the equation. *)
Ltac decoder_case :=
  match goal with
  | |- context [if ?c then _ else _] => destruct c
  | |- context [match ?r with EmptyString => _ | String _ _ => _ end] =>
      destruct r
  end.

Lemma decode_replace_nonempty bs : bs <> "" -> decode_replace bs <> "".
Proof.
  destruct bs as [|b0 r0]; [done |]. intros _.
  unfold decode_replace; fold decode_replace.
  repeat decoder_case;
    first [ apply replacement_nonempty
          | apply replacement_append_nonempty
          | intros H; inversion H ].
Qed.

Lemma unquote_item_nonempty item : unquote_item item <> "".
Proof.
  unfold unquote_item.
  repeat match goal with
         | |- context [match ?x with _ => _ end] => destruct x
         end; intros H; inversion H.
Qed.

Lemma unquote_to_bytes_nonempty s : s <> "" -> unquote_to_bytes s <> "".
Proof.
  destruct s as [|c s]; [done |]. intros _. unfold unquote_to_bytes. simpl.
  destruct (Ascii.eqb c "%").
  - pose proof (split_not_nil "%" s) as Hs.
    destruct (split "%" s) as [|item items]; [done |]. simpl.
    pose proof (unquote_item_nonempty item).
    destruct (unquote_item item); [done |]. by destruct items.
  - pose proof (split_not_nil "%" s) as Hs.
    destruct (split "%" s) as [|h t]; [done |]. discriminate.
Qed.

Lemma append_nonempty_r a b : b <> "" -> a +:+ b <> "".
Proof. destruct a; [done | discriminate]. Qed.

Lemma unquote_runs_nonempty run s : run <> "" \/ s <> "" -> unquote_runs run s <> "".
Proof.
  revert run. induction s as [|c s IH]; intros run H; simpl.
  - destruct H as [H | H]; [| done].
    by apply decode_replace_nonempty, unquote_to_bytes_nonempty.
  - destruct (is_ascii c).
    + apply IH. left. by apply append_nonempty_r.
    + by apply append_nonempty_r.
Qed.

Lemma unquote_nonempty s : s <> "" -> unquote s <> "".
Proof.
  intros H. unfold unquote. destruct (has_char "%" s); simpl; [| done].
  apply unquote_runs_nonempty. by right.
Qed.

Lemma unquote_plus_nonempty s : s <> "" -> unquote_plus s <> "".
Proof. intros H. apply unquote_nonempty. by destruct s. Qed.

(** Text without [%] and [+] decodes to itself. *)
Lemma unquote_plus_plain s :
  has_char "%" s = false -> has_char "+" s = false -> unquote_plus s = s.
Proof.
  intros Hpct Hplus. unfold unquote_plus, unquote.
  assert (replace_char "+" " " s = s) as ->.
  { clear Hpct. induction s as [|c s IH]; simpl in *; [reflexivity |].
    apply orb_false_iff in Hplus as [-> Hs]. by rewrite IH. }
  by rewrite Hpct.
Qed.

End UrllibFacts.

(* ===================================================================== *)
(** * Facts about the resolver *)
(* ===================================================================== *)

Module ResolverFacts.
Import PyStr Py PyVal Urllib Resolver PyStrFacts UrllibFacts.

(** On a YouTube host the identifier is the first value filed under
    [v]. *)
Lemma resolve_youtube url p :
  urlparse url = Ok p ->
  contains "youtube.com" (netloc p) = true ->
  resolve url =
  match values_named "v" (parse_qsl (query p)) with
  | String c id :: _ => Ok (String c id)
  | _ => Raise invalid_youtube_url
  end.
Proof.
  intros Hp Hhost. unfold resolve. rewrite Hp. simpl. rewrite Hhost.
  rewrite parse_qs_lookup.
  destruct (values_named "v" (parse_qsl (query p))) as [|[|c id] more];
    reflexivity.
Qed.

(** On any other host it is the last field of the path. *)
Lemma resolve_other url p :
  urlparse url = Ok p ->
  contains "youtube.com" (netloc p) = false ->
  resolve url =
  match last (split "/" (path p)) with
  | Some (String c id) => Ok (String c id)
  | _ => Raise invalid_youtube_url
  end.
Proof.
  intros Hp Hhost. unfold resolve. rewrite Hp. simpl. rewrite Hhost.
  unfold last_item.
  pose proof (split_not_nil "/" (path p)) as Hne.
  destruct (last (split "/" (path p))) as [[|c id]|] eqn:E; try reflexivity.
  apply last_None in E. by destruct Hne.
Qed.

(** Every error of [urlparse] is a [ValueError]. *)
Lemma urlparse_raises_ValueError url e :
  urlparse url = Raise e -> exn_class e = ValueError.
Proof.
  unfold urlparse, urlsplit, _checknetloc, _check_bracketed_netloc,
    _check_bracketed_host.
  intros H.
  repeat (case_match; simpl in *; simplify_eq); reflexivity.
Qed.

(** ** The two shapes of URL the service is meant for *)

#[local] Arguments String.append !_ _ / : simpl nomatch.

Lemma has_char_id c s :
  forall_chars is_id_char s = true -> is_id_char c = false -> has_char c s = false.
Proof.
  intros Hs Hc. induction s as [|d s IH]; simpl in *; [reflexivity |].
  apply andb_true_iff in Hs as [Hd Hs]. rewrite (IH Hs), orb_false_r.
  destruct (Ascii.eqb_spec d c) as [->|]; [congruence | reflexivity].
Qed.

Lemma id_char_not_unsafe c : is_id_char c = true -> is_unsafe_url_byte c = false.
Proof. destruct c as [[] [] [] [] [] [] [] []]; (reflexivity || discriminate). Qed.

Lemma remove_chars_id s :
  forall_chars is_id_char s = true -> remove_chars is_unsafe_url_byte s = s.
Proof.
  induction s as [|d s IH]; simpl; [reflexivity |]. intros H.
  apply andb_true_iff in H as [Hd Hs]. by rewrite (id_char_not_unsafe d Hd), (IH Hs).
Qed.

(** The two branches of [urlsplit] on a delimiter agree with one
    [partition]. *)
Lemma cut_at sep (url : string) :
  (if has_char sep url
   then match partition sep url with
        | (h, Some t) => (h, t)
        | (h, None) => (h, EmptyString)
        end
   else (url, EmptyString))
  = (fst (partition sep url), default EmptyString (snd (partition sep url))).
Proof.
  destruct (has_char sep url) eqn:E.
  - by destruct (partition sep url) as [h [t|]].
  - by rewrite (partition_no_char sep url E).
Qed.



Lemma urlparse_watch_url id tail :
  forall_chars is_id_char id = true ->
  exists frag,
    urlparse ("https://www.youtube.com/watch?v=" +:+ id +:+ tail)
    = Ok (mk_ParseResult "https" "www.youtube.com" "/watch" ""
            ("v=" +:+ id
             +:+ fst (partition "#" (remove_chars is_unsafe_url_byte tail)))
            frag).
Proof.
  intros Hid. unfold urlparse, urlsplit.
  assert (lstrip is_c0_control_or_space
            ("https://www.youtube.com/watch?v=" +:+ id +:+ tail)
          = "https://www.youtube.com/watch?v=" +:+ id +:+ tail) as -> by reflexivity.
  rewrite !remove_chars_append, (remove_chars_id id Hid).
  set (tail' := remove_chars is_unsafe_url_byte tail).
  assert (remove_chars is_unsafe_url_byte "https://www.youtube.com/watch?v="
          = "https://www.youtube.com/watch?v=") as -> by reflexivity.
  assert (split_scheme ("https://www.youtube.com/watch?v=" +:+ id +:+ tail')
          = ("https", "//www.youtube.com/watch?v=" +:+ id +:+ tail'))
    as -> by reflexivity.
  assert (String.prefix "//" ("//www.youtube.com/watch?v=" +:+ id +:+ tail') = true)
    as -> by reflexivity.
  assert (_splitnetloc ("//www.youtube.com/watch?v=" +:+ id +:+ tail')
          = ("www.youtube.com", "/watch?v=" +:+ id +:+ tail'))
    as -> by reflexivity.
  cbn [has_char andb orb negb Ascii.eqb Bool.eqb mbind pyres_bind].
  rewrite (cut_at "#").
  assert (partition "#" ("/watch?v=" +:+ id +:+ tail')
          = ("/watch?v=" +:+ id +:+ fst (partition "#" tail'),
             snd (partition "#" tail')))
    as ->.
  { change ("/watch?v=" +:+ id +:+ tail') with ("/watch?v=" +:+ (id +:+ tail')).
    rewrite <- append_assoc, partition_append_no_sep.
    - by rewrite append_assoc.
    - rewrite has_char_append. simpl. apply (has_char_id "#" id Hid eq_refl). }
  cbn [fst snd].
  rewrite (cut_at "?").
  assert (partition "?" ("/watch?v=" +:+ id +:+ fst (partition "#" tail'))
          = ("/watch", Some ("v=" +:+ id +:+ fst (partition "#" tail'))))
    as -> by reflexivity.
  cbn [fst snd default].
  assert (_checknetloc "www.youtube.com" = Ok tt) as -> by reflexivity.
  cbn [mbind pyres_bind].
  assert (has_char ";" "/watch" = false) as -> by reflexivity.
  rewrite andb_false_r. eexists. reflexivity.
Qed.

(** Every URL [https://www.youtube.com/watch?v=<ID>], alone or followed
    by [&] and anything, resolves to [<ID>]. *)
Lemma resolve_watch_url id tail :
  forall_chars is_id_char id = true -> id <> "" ->
  tail = "" \/ (exists rest, tail = "&" +:+ rest) ->
  resolve ("https://www.youtube.com/watch?v=" +:+ id +:+ tail) = Ok id.
Proof.
  intros Hid Hne Htail.
  destruct (urlparse_watch_url id tail Hid) as [frag Hp].
  rewrite (resolve_youtube _ _ Hp eq_refl). cbn [query].
  rewrite parse_qsl_fields.
  assert (exists more,
            split "&" ("v=" +:+ id
                       +:+ fst (partition "#" (remove_chars is_unsafe_url_byte tail)))
            = ("v=" +:+ id) :: more) as [more ->].
  { assert (has_char "&" ("v=" +:+ id) = false) as Hamp
      by (simpl; apply (has_char_id "&" id Hid eq_refl)).
    destruct Htail as [-> | [rest ->]].
    - exists []. simpl remove_chars. simpl partition. cbn [fst].
      rewrite <- append_assoc, append_nil_r. by apply split_no_sep.
    - simpl remove_chars.
      destruct (partition "#" (remove_chars is_unsafe_url_byte rest)) as [r1 t] eqn:P.
      exists (split "&" r1). simpl partition. rewrite P. cbn [fst].
      change ("v=" +:+ id +:+ String "&" r1) with ("v=" +:+ (id +:+ String "&" r1)).
      rewrite <- append_assoc, split_append. by rewrite (split_no_sep _ _ Hamp). }
  cbn [flat_map].
  change (parse_field ("v=" +:+ id)) with (parse_field ("v" +:+ "=" +:+ id)).
  rewrite (parse_field_pair "v" id eq_refl Hne).
  rewrite (unquote_plus_plain id (has_char_id "%" id Hid eq_refl)
             (has_char_id "+" id Hid eq_refl)).
  simpl. by destruct id.
Qed.

End ResolverFacts.

(* ===================================================================== *)
(** * Facts about computations *)
(* ===================================================================== *)

Module EffectsFacts.
Import Py Effects.

Lemma all_returns_impl {A} (P Q : A -> Prop) (m : io A) :
  (forall a, P a -> Q a) -> all_returns P m -> all_returns Q m.
Proof.
  intros HPQ. induction m as [a|e| |msg k IH|id k IH]; simpl; auto.
Qed.

Lemma all_returns_bind {A B} (P : B -> Prop) (m : io A) (f : A -> io B) :
  all_returns (fun a => all_returns P (f a)) m -> all_returns P (bind m f).
Proof. induction m as [a|e| |msg k IH|id k IH]; simpl; auto. Qed.

Lemma all_returns_try_except {A} (P : A -> Prop) (m : io A) (h : exn -> io A) :
  all_returns P m -> (forall e, all_returns P (h e)) ->
  all_returns P (try_except m h).
Proof. intros Hm Hh. induction m as [a|e| |msg k IH|id k IH]; simpl in *; auto. Qed.

Lemma all_returns_returns {A} (P : A -> Prop) (m : io A) (a : A) :
  all_returns P m -> returns m a -> P a.
Proof. intros Hm Hr. induction Hr; simpl in Hm; auto. Qed.

Lemma never_throws_try_except {A} (m : io A) (h : exn -> io A) :
  (forall e, never_throws (h e)) -> never_throws (try_except m h).
Proof. intros Hh. induction m as [a|e| |msg k IH|id k IH]; simpl; auto. Qed.

Lemma never_fetches_try_except {A} (m : io A) (h : exn -> io A) :
  never_fetches m -> (forall e, never_fetches (h e)) ->
  never_fetches (try_except m h).
Proof. intros Hm Hh. induction m as [a|e| |msg k IH|id k IH]; simpl in *; auto. Qed.

(** A computation that never reaches the library shows no fetch in any
    run. *)
Lemma never_fetches_run {A} (library : string -> answer) (m : io A) video_id :
  never_fetches m -> Fetched video_id ∉ fst (run library m).
Proof.
  induction m as [a|e| |msg k IH|id k IH]; simpl; intros H;
    try apply not_elem_of_nil.
  - specialize (IH H). destruct (run library k) as [evs r]. simpl in *.
    apply not_elem_of_cons. split; [discriminate | exact IH].
  - destruct H.
Qed.

End EffectsFacts.

(* ===================================================================== *)
(** * Facts about the header list *)
(* ===================================================================== *)

Module WerkzeugFacts.
Import PyStr Werkzeug.

Lemma same_key_refl key : same_key key key = true.
Proof. apply String.eqb_refl. Qed.

(** Keys that match a common key match each other. *)
Lemma same_key_trans key k k' :
  same_key key k = true -> same_key k' k = same_key k' key.
Proof.
  unfold same_key. intros H. apply String.eqb_eq in H.
  destruct (String.eqb_spec (lower k) (lower k')) as [E|E];
    destruct (String.eqb_spec (lower key) (lower k')) as [E'|E'];
    congruence.
Qed.

Lemma same_key_sym key k : same_key key k = same_key k key.
Proof. unfold same_key. apply String.eqb_sym. Qed.

Lemma getlist_without key (h : Headers) :
  getlist key (List.filter (fun kv => negb (same_key key (fst kv))) h) = [].
Proof.
  unfold getlist. induction h as [|[k v] h IH]; simpl; [reflexivity |].
  destruct (same_key key k) eqn:E; simpl; [exact IH |].
  by rewrite E.
Qed.

Lemma getlist_without_other key key' (h : Headers) :
  same_key key key' = false ->
  getlist key' (List.filter (fun kv => negb (same_key key (fst kv))) h)
  = getlist key' h.
Proof.
  intros Hne. unfold getlist. induction h as [|[k v] h IH]; simpl; [reflexivity |].
  destruct (same_key key k) eqn:E; simpl.
  - rewrite (same_key_trans key k key' E), same_key_sym, Hne. exact IH.
  - destruct (same_key key' k); simpl; by rewrite IH.
Qed.

(** After [headers[key] = value] the key has this value and no other. *)
Lemma getlist_set key value (h : Headers) :
  getlist key (set key value h) = [value].
Proof.
  induction h as [|[k v] h IH]; simpl.
  - unfold getlist. simpl. by rewrite same_key_refl.
  - destruct (same_key key k) eqn:E.
    + unfold getlist. simpl. rewrite same_key_refl. simpl.
      f_equal. apply getlist_without.
    + unfold getlist in *. simpl. by rewrite E.
Qed.

(** [headers[key] = value] leaves every other key as it was. *)
Lemma getlist_set_other key value key' (h : Headers) :
  same_key key key' = false ->
  getlist key' (set key value h) = getlist key' h.
Proof.
  intros Hne. induction h as [|[k v] h IH]; simpl.
  - unfold getlist. simpl. by rewrite same_key_sym, Hne.
  - destruct (same_key key k) eqn:E.
    + unfold getlist at 1. simpl.
      rewrite (same_key_sym key' key), Hne.
      fold (getlist key' (List.filter (fun kv => negb (same_key key (fst kv))) h)).
      rewrite (getlist_without_other key key' h Hne).
      unfold getlist. simpl.
      by rewrite (same_key_trans key k key' E), same_key_sym, Hne.
    + unfold getlist in *. simpl. destruct (same_key key' k); simpl; by rewrite IH.
Qed.

Lemma getlist_add_other key value key' (h : Headers) :
  same_key key key' = false ->
  getlist key' (add key value h) = getlist key' h.
Proof.
  intros Hne. unfold getlist, add. rewrite List.filter_app, map_app. simpl.
  by rewrite same_key_sym, Hne, app_nil_r.
Qed.

End WerkzeugFacts.

(* ===================================================================== *)
(** * Facts about the server *)
(* ===================================================================== *)

Module ServerFacts.
Import PyStr Py PyVal Effects Urllib Resolver Werkzeug Limits Server.
Import EffectsFacts WerkzeugFacts.

(** ** The error handler takes every exception *)

Lemma find_error_handler_total e : _find_error_handler e = Some handle_error.
Proof. destruct e as [[] msg [code|]]; reflexivity. Qed.

Lemma handle_user_exception_eq e : handle_user_exception e = handle_error e.
Proof.
  unfold handle_user_exception, handle_http_exception.
  rewrite find_error_handler_total. by destruct (exn_code e).
Qed.

(** ** The hooks after the request *)

Lemma add_security_headers_getlist (response : Response) :
  let h := headers (add_security_headers response) in
  getlist "X-Content-Type-Options" h = ["nosniff"]
  /\ getlist "X-Frame-Options" h = ["DENY"]
  /\ getlist "X-XSS-Protection" h = ["1; mode=block"]
  /\ getlist "Strict-Transport-Security" h = ["max-age=31536000; includeSubDomains"].
Proof.
  unfold add_security_headers. simpl. repeat split.
  - do 3 (rewrite getlist_set_other by reflexivity). apply getlist_set.
  - do 2 (rewrite getlist_set_other by reflexivity). apply getlist_set.
  - rewrite getlist_set_other by reflexivity. apply getlist_set.
  - apply getlist_set.
Qed.

(** The cross-origin hook only adds headers of its own. *)
Lemma cors_after_request_getlist req (resp : Response) key :
  same_key "Access-Control-Allow-Origin" key = false ->
  same_key "Vary" key = false ->
  getlist key (headers (cors_after_request req resp)) = getlist key (headers resp).
Proof.
  intros Hacao Hvary. unfold cors_after_request.
  destruct (getlist "Access-Control-Allow-Origin" (headers resp)); [| reflexivity].
  destruct (origin req) as [[|c rest]|]; simpl.
  - by apply getlist_add_other.
  - rewrite getlist_add_other by done. by apply getlist_add_other.
  - by apply getlist_add_other.
Qed.

Lemma process_response_getlist req (rv : Response) :
  let h := headers (process_response req rv) in
  getlist "X-Content-Type-Options" h = ["nosniff"]
  /\ getlist "X-Frame-Options" h = ["DENY"]
  /\ getlist "X-XSS-Protection" h = ["1; mode=block"]
  /\ getlist "Strict-Transport-Security" h = ["max-age=31536000; includeSubDomains"].
Proof.
  unfold process_response. simpl.
  rewrite !cors_after_request_getlist by reflexivity.
  apply add_security_headers_getlist.
Qed.

Lemma process_response_status req (rv : Response) :
  status (process_response req rv) = status rv.
Proof.
  unfold process_response, cors_after_request.
  destruct (getlist _ _); [| reflexivity].
  by destruct (origin req) as [[|c rest]|].
Qed.

(** ** What the server returns went through the hooks *)

Lemma all_returns_trivial {A} (P : A -> Prop) (m : io A) :
  (forall a, P a) -> all_returns P m.
Proof. intros H. induction m; simpl; auto. Qed.

Lemma wsgi_app_processed (P : Response -> Prop) p st req :
  (forall rv, P (process_response req rv)) ->
  all_returns P (fst (wsgi_app p st req)).
Proof.
  intros HP. unfold wsgi_app.
  destruct (_check_request_limit p st req) as [checked st']. simpl.
  apply all_returns_try_except.
  - unfold full_dispatch_request. apply all_returns_bind.
    apply all_returns_trivial. intros rv. apply HP.
  - intros e. simpl. apply HP.
Qed.

(** No exception leaves the application. *)
Lemma wsgi_app_never_throws p st req : never_throws (fst (wsgi_app p st req)).
Proof.
  unfold wsgi_app.
  destruct (_check_request_limit p st req) as [checked st']. simpl.
  apply never_throws_try_except. intros e. exact I.
Qed.

(** ** The transcript view *)

Lemma get_transcript_url_required req data :
  json req = Parsed data ->
  truthy data = false \/ contains_str "url" data = Ok false ->
  get_transcript req
  = Ret (with_status 400 (jsonify (PDict [("error", PStr "URL is required")]))).
Proof.
  intros Hjson H. unfold get_transcript, get_json. rewrite Hjson. simpl.
  destruct (truthy data); [| reflexivity].
  destruct H as [H | H]; [discriminate |]. rewrite H. reflexivity.
Qed.

(** A body [request.get_json()] does not read, such as an empty one sent
    as [application/json], is answered 500 with the text of werkzeug's
    exception. *)
Lemma get_transcript_unreadable_body req e :
  json req = Unreadable e ->
  get_transcript req
  = LoggerError ("Error in transcript endpoint: " +:+ exn_str e)
      (Ret (with_status 500 (jsonify (PDict [("error", PStr (exn_str e))])))).
Proof. intros Hjson. unfold get_transcript, get_json. by rewrite Hjson. Qed.

(** The view with a body that holds a value under ["url"]. *)
Lemma get_transcript_with_url req d url :
  json req = Parsed (PDict d) ->
  dict_get d "url" = Some url ->
  get_transcript req
  = try_except
      (transcript ← get_video_transcript url;
       Ret (jsonify (PDict [("transcript", transcript)])))
      (fun e =>
         LoggerError ("Error in transcript endpoint: " +:+ exn_str e)
           (Ret (with_status 500 (jsonify (PDict [("error", PStr (exn_str e))]))))).
Proof.
  intros Hjson Hurl.
  assert (truthy (PDict d) = true) as Htruthy by (by destruct d).
  assert (contains_str "url" (PDict d) = Ok true) as Hin
    by (simpl; by rewrite Hurl).
  assert (getitem_str (PDict d) "url" = Ok url) as Hget
    by (simpl; by rewrite Hurl).
  unfold get_transcript, get_json. rewrite Hjson.
  cbn [mbind io_bind bind]. rewrite Htruthy. cbn [negb].
  rewrite Hin. cbn [lift mbind io_bind bind negb].
  rewrite Hget. reflexivity.
Qed.

Lemma get_video_transcript_failure url e :
  resolve_value url = Raise e ->
  get_video_transcript url
  = LoggerError ("Error fetching transcript: " +:+ exn_str e) (Throw e).
Proof. intros H. unfold get_video_transcript. by rewrite H. Qed.

(** A body without a value under ["url"] never gets as far as the
    transcript library, whatever the view answers. *)
Lemma get_transcript_without_url_never_fetches req :
  (forall d url, json req = Parsed (PDict d) -> dict_get d "url" <> Some url) ->
  never_fetches (get_transcript req).
Proof.
  intros Hno. unfold get_transcript, get_json.
  apply never_fetches_try_except; [| intros e; exact I].
  destruct (json req) as [data|e] eqn:Hjson; [| exact I].
  cbn [mbind io_bind bind].
  destruct (truthy data) eqn:Htruthy; cbn [negb mbind io_bind bind]; [| exact I].
  destruct data as [|b|z|f|s|l|d]; try exact I.
  - cbn [contains_str lift mbind io_bind bind].
    destruct (contains "url" s); exact I.
  - cbn [contains_str lift mbind io_bind bind].
    destruct (existsb (str_eq "url") l); exact I.
  - cbn [contains_str lift mbind io_bind bind].
    destruct (dict_get d "url") as [url|] eqn:Hurl; [| exact I].
    by destruct (Hno d url eq_refl).
Qed.

(** ** Refusals of the limiter *)

(** A request the limiter refuses is answered by [handle_error]: the
    refusal is logged as an error and sent with status 500. *)
Lemma refused_request_is_answered_500 p st req e st' :
  _check_request_limit p st req = (Raise e, st') ->
  wsgi_app p st req
  = (LoggerError ("An error occurred: " +:+ exn_str e)
       (Ret (process_response req
               {| status := 500;
                  headers := [("Content-Type", "application/json")];
                  data := Json (PDict [("error", PStr (exn_str e));
                                       ("status", PStr "error")]) |})),
     st').
Proof.
  intros H. unfold wsgi_app, full_dispatch_request. rewrite H.
  cbn [lift mbind io_bind bind try_except].
  rewrite handle_user_exception_eq. reflexivity.
Qed.

(** The statuses of the views and of the error handler. *)
Lemma get_transcript_statuses req :
  all_returns (fun rv => status rv = 200 \/ status rv = 400 \/ status rv = 500)
    (get_transcript req).
Proof.
  unfold get_transcript. apply all_returns_try_except.
  - apply all_returns_bind. apply all_returns_trivial. intros data.
    apply all_returns_bind. apply all_returns_trivial. intros [|].
    + simpl. auto.
    + apply all_returns_bind. apply all_returns_trivial. intros url.
      apply all_returns_bind. apply all_returns_trivial. intros t.
      simpl. auto.
  - intros e. simpl. auto.
Qed.

(** No response of the server has status 429. *)
Lemma wsgi_app_never_429 p st req :
  all_returns (fun response => status response <> 429) (fst (wsgi_app p st req)).
Proof.
  unfold wsgi_app.
  destruct (_check_request_limit p st req) as [checked st']. simpl.
  apply all_returns_try_except; [| intros e; simpl; by rewrite process_response_status].
  unfold full_dispatch_request. apply all_returns_bind.
  apply (all_returns_impl
           (fun rv => status rv = 200 \/ status rv = 204
                      \/ status rv = 400 \/ status rv = 500)).
  { intros rv H. simpl. rewrite process_response_status.
    destruct H as [-> | [-> | [-> | ->]]]; discriminate. }
  apply all_returns_try_except.
  - apply all_returns_bind. apply all_returns_trivial. intros _.
    unfold dispatch_request. apply all_returns_bind.
    apply all_returns_trivial. intros ep.
    assert (all_returns
              (fun rv => status rv = 200 \/ status rv = 204
                         \/ status rv = 400 \/ status rv = 500)
              (view p req ep)) as Hview.
    { destruct ep; simpl; auto.
      apply (all_returns_impl
               (fun rv => status rv = 200 \/ status rv = 400 \/ status rv = 500));
        [intros rv H; tauto | apply get_transcript_statuses]. }
    destruct (method req); simpl; auto.
  - intros e. rewrite handle_user_exception_eq. simpl. auto.
Qed.

(** ** The counter of the root view *)

(** The first [GET /] of a window: the client has no counter, or one
    whose window is over.  The request is served and the window is
    opened for sixty seconds. *)
Lemma wsgi_app_home_fresh p st req :
  method req = GET -> req_path req = "/" ->
  match st !! key_for (get_remote_address req) "home" home_limit with
  | Some (_, expires) => (expires <= time_time p)%Z
  | None => True
  end ->
  wsgi_app p st req
  = (rv ← home; Ret (process_response req rv),
     <[key_for (get_remote_address req) "home" home_limit
       := (1%nat, (time_time p + 60)%Z)]> st).
Proof.
  intros Hmethod Hpath Hfresh.
  unfold wsgi_app, _check_request_limit, match_request.
  rewrite Hpath, Hmethod. simpl.
  unfold hit, incr.
  destruct (st !! key_for (get_remote_address req) "home" home_limit)
    as [[n expires]|].
  - destruct (expires <=? time_time p)%Z eqn:E; [| lia].
    cbn [amount window home_limit per_minute Nat.leb].
    unfold full_dispatch_request, dispatch_request, match_request.
    rewrite Hpath, Hmethod. reflexivity.
  - cbn [amount window home_limit per_minute Nat.leb].
    unfold full_dispatch_request, dispatch_request, match_request.
    rewrite Hpath, Hmethod. reflexivity.
Qed.

(** A later [GET /] of the window: the counter goes up by one, and the
    request is served while the counter stays within the limit. *)
Lemma wsgi_app_home_counted p st req n expires :
  method req = GET -> req_path req = "/" ->
  st !! key_for (get_remote_address req) "home" home_limit = Some (n, expires) ->
  (time_time p < expires)%Z ->
  wsgi_app p st req
  = (if (S n <=? 10)%nat
     then rv ← home; Ret (process_response req rv)
     else rv ← handle_error (rate_limit_exceeded home_limit);
          Ret (process_response req rv),
     <[key_for (get_remote_address req) "home" home_limit := (S n, expires)]> st).
Proof.
  intros Hmethod Hpath Hcounter Htime.
  destruct (S n <=? 10)%nat eqn:Hwithin.
  - unfold wsgi_app, _check_request_limit, match_request.
    rewrite Hpath, Hmethod. simpl.
    unfold hit, incr. rewrite Hcounter.
    destruct (expires <=? time_time p)%Z eqn:E; [lia |].
    cbn [amount window home_limit per_minute]. rewrite Hwithin.
    unfold full_dispatch_request, dispatch_request, match_request.
    rewrite Hpath, Hmethod. reflexivity.
  - assert (_check_request_limit p st req
            = (Raise (rate_limit_exceeded home_limit),
               <[key_for (get_remote_address req) "home" home_limit
                 := (S n, expires)]> st))
      as Hcheck.
    { unfold _check_request_limit, match_request. rewrite Hpath, Hmethod. simpl.
      unfold hit, incr. rewrite Hcounter.
      destruct (expires <=? time_time p)%Z eqn:E; [lia |].
      cbn [amount window home_limit per_minute]. by rewrite Hwithin. }
    by rewrite (refused_request_is_answered_500 _ _ _ _ _ Hcheck).
Qed.

(** The requests of one client to the root view within one window: the
    first ones are served until the counter reaches ten, all later ones
    are refused. *)
Lemma serve_home_counted address expires arrivals :
  forall st n,
  st !! key_for address "home" home_limit = Some (n, expires) ->
  Forall (fun arrival =>
            method (snd arrival) = GET /\ req_path (snd arrival) = "/"
            /\ get_remote_address (snd arrival) = address
            /\ (time_time (fst arrival) < expires)%Z) arrivals ->
  forall i p req, arrivals !! i = Some (p, req) ->
  serve st arrivals !! i
  = Some (if (S (n + i) <=? 10)%nat
          then rv ← home; Ret (process_response req rv)
          else rv ← handle_error (rate_limit_exceeded home_limit);
               Ret (process_response req rv)).
Proof.
  induction arrivals as [|[p0 req0] arrivals IH]; intros st n Hcounter Hall i p req Hi;
    [by rewrite lookup_nil in Hi |].
  apply Forall_cons in Hall as [(Hmethod & Hpath & Haddr & Htime) Hall].
  simpl in Hmethod, Hpath, Haddr, Htime. subst address.
  cbn [serve].
  rewrite (wsgi_app_home_counted p0 st req0 n expires Hmethod Hpath Hcounter Htime).
  destruct i as [|i]; simpl in Hi.
  - inversion Hi; subst. by rewrite Nat.add_0_r.
  - rewrite Nat.add_succ_r. simpl.
    apply (IH _ (S n) (lookup_insert_eq _ _ _) Hall i p req Hi).
Qed.

End ServerFacts.

(* ===================================================================== *)
(** * The resolver: properties of the specification *)
(* ===================================================================== *)

Import PyStr Py PyVal Effects Urllib Resolver Werkzeug Limits Server.
Import PyStrFacts UrllibFacts ResolverFacts.

(** C5.  For every URL whose host contains the substring "youtube.com" and
    whose query string has a non-empty parameter [v] equal to [id], the
    resolver returns exactly [id].  The parameters of a query string are
    the pairs [parse_qsl] reads from it; the parameter [v] is the first
    pair with that name.  In particular every URL
    [https://www.youtube.com/watch?v=<ID>], alone or followed by [&] and
    anything, resolves to [<ID>] when [<ID>] is made of letters, digits,
    [-] and [_]. *)
Theorem C5_youtube_v_parameter :
  (forall (url : string) (p : ParseResult)
          (before after : list (string * string)) (id : string),
     urlparse url = Ok p ->
     contains "youtube.com" (netloc p) = true ->
     parse_qsl (query p) = before ++ ("v", id) :: after ->
     "v" ∉ map fst before ->
     id <> "" ->
     resolve url = Ok id)
  /\ (forall (id rest : string),
        forall_chars is_id_char id = true ->
        id <> "" ->
        resolve ("https://www.youtube.com/watch?v=" +:+ id) = Ok id
        /\ resolve ("https://www.youtube.com/watch?v=" +:+ id +:+ "&" +:+ rest)
           = Ok id).
Proof.
  split.
  - intros url p before after id Hp Hhost Hq Hfirst Hid.
    rewrite (resolve_youtube url p Hp Hhost), Hq, values_named_app.
    rewrite (values_named_absent _ _ Hfirst). simpl.
    by destruct id.
  - intros id rest Hchars Hid. split.
    + rewrite <- (resolve_watch_url id "" Hchars Hid (or_introl eq_refl)).
      by rewrite PyStrFacts.append_nil_r.
    + apply (resolve_watch_url id ("&" +:+ rest) Hchars Hid).
      right. by exists rest.
Qed.

Lemma C5_witness :
  resolve "https://m.youtube.com/watch?list=PL1&v=dQw4w9WgXcQ&t=42s"
  = Ok "dQw4w9WgXcQ".
Proof.
  apply (proj1 C5_youtube_v_parameter _
           (mk_ParseResult "https" "m.youtube.com" "/watch" ""
              "list=PL1&v=dQw4w9WgXcQ&t=42s" "")
           [("list", "PL1")] [("t", "42s")]).
  - reflexivity.
  - reflexivity.
  - reflexivity.
  - intros Hin. apply list_elem_of_singleton in Hin. discriminate.
  - discriminate.
Defined.




(** C7 as the specification states it fails, in both halves.  In
    [https://www.youtube.com/watch?v=&v=abc] the parameter [v] has an
    empty value, but a later occurrence has one and the resolver returns
    [abc].  In [https://youtube.com@youtu.be/?v=abc] the host is
    [youtu.be] and the path ends in [/], but "youtube.com" stands in the
    network location, the parameter [v] is read and the resolver returns
    [abc]. *)
Lemma C7_counterexample :
  ~ (forall (url : string) (p : ParseResult),
       urlparse url = Ok p ->
       contains "youtube.com" (fst (_hostinfo (netloc p))) = true ->
       "v=" ∈ split "&" (query p) ->
       exists e, resolve url = Raise e)
  /\ ~ (forall (url : string) (p : ParseResult) (pre : string),
          urlparse url = Ok p ->
          contains "youtube.com" (fst (_hostinfo (netloc p))) = false ->
          path p = pre +:+ "/" ->
          exists e, resolve url = Raise e).
Proof.
  split; intros H.
  - destruct (H "https://www.youtube.com/watch?v=&v=abc"
                (mk_ParseResult "https" "www.youtube.com" "/watch" ""
                   "v=&v=abc" "")
                eq_refl eq_refl) as [e He].
    + vm_compute. left.
    + vm_compute in He. discriminate.
  - destruct (H "https://youtube.com@youtu.be/?v=abc"
                (mk_ParseResult "https" "youtube.com@youtu.be" "/" "" "v=abc" "")
                "" eq_refl eq_refl eq_refl) as [e He].
    vm_compute in He. discriminate.
Qed.

(** C7, amended.  The resolver fails with "Invalid YouTube URL" for every
    URL whose network location contains "youtube.com" and in whose query
    no occurrence of [v] has a value: [v] is absent, or every field named
    [v] reads [v=] with nothing after it.  It fails for every URL whose
    network location (the user information, the host and the port
    together) does not contain "youtube.com" and whose path ends in [/].
    In particular it fails on [https://www.youtube.com/watch?v=] and on
    [https://youtu.be/]. *)
Theorem C7_empty_identifier_fails :
  (forall (url : string) (p : ParseResult),
     urlparse url = Ok p ->
     contains "youtube.com" (netloc p) = true ->
     (forall field, field ∈ split "&" (query p) ->
        forall n v, partition "=" field = (n, Some v) ->
                    unquote_plus n = "v" -> v = "") ->
     resolve url = Raise invalid_youtube_url)
  /\ (forall (url : string) (p : ParseResult) (pre : string),
        urlparse url = Ok p ->
        contains "youtube.com" (netloc p) = false ->
        path p = pre +:+ "/" ->
        resolve url = Raise invalid_youtube_url)
  /\ resolve "https://www.youtube.com/watch?v=" = Raise invalid_youtube_url
  /\ resolve "https://youtu.be/" = Raise invalid_youtube_url.
Proof.
  repeat split.
  - intros url p Hp Hhost Hblank.
    rewrite (resolve_youtube url p Hp Hhost), parse_qsl_fields.
    by rewrite (values_named_fields "v" _ Hblank).
  - intros url p pre Hp Hhost Hpath.
    rewrite (resolve_other url p Hp Hhost), Hpath.
    by rewrite (last_split_after "/" pre "" eq_refl).
Qed.

Lemma C7_witness :
  resolve "https://www.youtube.com/watch?v=&list=PL1" = Raise invalid_youtube_url
  /\ resolve "https://example.com/videos/" = Raise invalid_youtube_url.
Proof.
  split.
  - apply (proj1 C7_empty_identifier_fails _
             (mk_ParseResult "https" "www.youtube.com" "/watch" ""
                "v=&list=PL1" "")); [reflexivity | reflexivity |].
    intros field Hin n v Hpart Hname.
    apply elem_of_cons in Hin as [-> | Hin].
    + vm_compute in Hpart. by inversion Hpart.
    + apply elem_of_cons in Hin as [-> | Hin].
      * vm_compute in Hpart. inversion Hpart; subst. vm_compute in Hname.
        discriminate.
      * by apply elem_of_nil in Hin.
  - apply (proj1 (proj2 C7_empty_identifier_fails) _
             (mk_ParseResult "https" "example.com" "/videos/" "" "" "")
             "/videos"); reflexivity.
Defined.

(** C4 as the specification states it fails: on [http://[] the parser
    raises "Invalid IPv6 URL", the resolver does not fail with its own
    "Invalid YouTube URL", and the parser's exception is what escapes to
    the caller. *)
Lemma C4_counterexample :
  ~ (forall e : exn,
       urlparse "http://[" = Raise e ->
       resolve "http://[" = Raise invalid_youtube_url
       /\ ~ throws (get_video_transcript (PStr "http://[")) e).
Proof.
  intros H.
  destruct (H (raise_ ValueError "Invalid IPv6 URL") eq_refl) as [Hkind _].
  vm_compute in Hkind. discriminate.
Qed.

(** C4, amended.  For every input string that fails to parse as a URI the
    resolver fails with the parser's own exception: it has the class of
    the resolver's own failure, [ValueError], but keeps its own message;
    [get_video_transcript] logs it and raises it again unchanged. *)
Theorem C4_parser_error_is_reraised (url : string) (e : exn) :
  urlparse url = Raise e ->
  exn_class e = exn_class invalid_youtube_url
  /\ resolve url = Raise e
  /\ get_video_transcript (PStr url)
     = LoggerError ("Error fetching transcript: " +:+ exn_str e) (Throw e).
Proof.
  intros Hp. split; [| split].
  - by rewrite (urlparse_raises_ValueError url e Hp).
  - unfold resolve. by rewrite Hp.
  - unfold get_video_transcript. simpl. unfold resolve. by rewrite Hp.
Qed.

Lemma C4_witness :
  exn_class (raise_ ValueError "Invalid IPv6 URL") = exn_class invalid_youtube_url
  /\ resolve "http://[" = Raise (raise_ ValueError "Invalid IPv6 URL")
  /\ get_video_transcript (PStr "http://[")
     = LoggerError "Error fetching transcript: Invalid IPv6 URL"
         (Throw (raise_ ValueError "Invalid IPv6 URL")).
Proof.
  apply (C4_parser_error_is_reraised "http://["
           (raise_ ValueError "Invalid IPv6 URL")).
  reflexivity.
Defined.

(** C10 as the specification states it fails: in
    [https://www.youtube.com/watch?v=&v=abc] the parameter [v] occurs
    twice and its first occurrence has the empty value.  The resolver
    neither returns that value nor fails on it: it returns the value of
    the second occurrence. *)
Lemma C10_counterexample :
  ~ (forall (p : ParseResult) (first later : string),
       urlparse "https://www.youtube.com/watch?v=&v=abc" = Ok p ->
       split "&" (query p) = ["v=" +:+ first; "v=" +:+ later] ->
       resolve "https://www.youtube.com/watch?v=&v=abc" = Ok first
       \/ (first = "" /\
           exists e, resolve "https://www.youtube.com/watch?v=&v=abc" = Raise e)).
Proof.
  intros H.
  destruct (H (mk_ParseResult "https" "www.youtube.com" "/watch" ""
                 "v=&v=abc" "") "" "abc" eq_refl eq_refl)
    as [Hfirst | [_ [e Hfails]]].
  - vm_compute in Hfirst. discriminate.
  - vm_compute in Hfails. discriminate.
Qed.

(** C10, amended.  For every URL whose host contains "youtube.com" the
    resolver returns the value of the first occurrence of [v] that has a
    non-empty value, decoded; the occurrences before it that have no
    value are skipped and all later occurrences are ignored. *)
Theorem C10_first_valued_occurrence (url : string) (p : ParseResult)
    (before after : list string) (name value : string) :
  urlparse url = Ok p ->
  contains "youtube.com" (netloc p) = true ->
  split "&" (query p) = before ++ (name +:+ "=" +:+ value) :: after ->
  has_char "=" name = false ->
  unquote_plus name = "v" ->
  value <> "" ->
  (forall field, field ∈ before ->
     forall n v, partition "=" field = (n, Some v) ->
                 unquote_plus n = "v" -> v = "") ->
  resolve url = Ok (unquote_plus value).
Proof.
  intros Hp Hhost Hfields Hname Hv Hvalue Hbefore.
  rewrite (resolve_youtube url p Hp Hhost), parse_qsl_fields, Hfields.
  rewrite flat_map_app, values_named_app. simpl.
  rewrite (values_named_fields "v" before Hbefore).
  rewrite (parse_field_pair name value Hname Hvalue). simpl.
  rewrite Hv. simpl.
  pose proof (unquote_plus_nonempty value Hvalue).
  by destruct (unquote_plus value).
Qed.

Lemma C10_witness :
  resolve "https://www.youtube.com/watch?v=&v=abc&v=def" = Ok "abc".
Proof.
  apply (C10_first_valued_occurrence _
           (mk_ParseResult "https" "www.youtube.com" "/watch" ""
              "v=&v=abc&v=def" "")
           ["v="] ["v=def"] "v" "abc").
  - reflexivity.
  - reflexivity.
  - reflexivity.
  - reflexivity.
  - reflexivity.
  - discriminate.
  - intros field Hin n v Hpart _.
    apply list_elem_of_singleton in Hin as ->.
    vm_compute in Hpart. by inversion Hpart.
Defined.

(* ===================================================================== *)
(** * The server: properties of the specification *)
(* ===================================================================== *)

Import EffectsFacts WerkzeugFacts ServerFacts.

(** C1 fails on the code for a body that lacks the field [url] without
    being something the membership test can search.  For a JSON number
    other than zero [not data] is false and ['url' not in data] is a type
    error; the view answers 500 with the text of that error, not 400
    with "URL is required". *)
Theorem C1_number_body_is_answered_500 (req : request) (z : Z) :
  json req = Parsed (PInt z) ->
  z <> 0%Z ->
  get_transcript req
  = LoggerError
      "Error in transcript endpoint: argument of type 'int' is not iterable"
      (Ret {| status := 500;
              headers := [("Content-Type", "application/json")];
              data := Json
                        (PDict [("error",
                                 PStr "argument of type 'int' is not iterable")]) |}).
Proof.
  intros Hjson Hz. unfold get_transcript, get_json. rewrite Hjson.
  cbn [mbind io_bind bind truthy].
  destruct (Z.eqb_spec z 0) as [E|_]; [by destruct Hz |]. reflexivity.
Qed.

Lemma C1_witness :
  get_transcript
    (mk_request POST "/api/transcript" (Some "203.0.113.7") None (Parsed (PInt 5)))
  = LoggerError
      "Error in transcript endpoint: argument of type 'int' is not iterable"
      (Ret {| status := 500;
              headers := [("Content-Type", "application/json")];
              data := Json
                        (PDict [("error",
                                 PStr "argument of type 'int' is not iterable")]) |}).
Proof.
  apply (C1_number_body_is_answered_500 _ 5); [reflexivity | discriminate].
Defined.

(** C2.  For every request to the transcript view whose body holds under
    [url] a value on which the resolver fails, the view answers with
    status 500, not 400, and with the body [{"error": <message>}] where
    the message is that of the resolver's exception. *)
Theorem C2_resolver_failure_is_500 (req : request)
    (d : list (string * pyval)) (url : pyval) (e : exn) :
  json req = Parsed (PDict d) ->
  dict_get d "url" = Some url ->
  resolve_value url = Raise e ->
  get_transcript req
  = LoggerError ("Error fetching transcript: " +:+ exn_str e)
      (LoggerError ("Error in transcript endpoint: " +:+ exn_str e)
         (Ret {| status := 500;
                 headers := [("Content-Type", "application/json")];
                 data := Json (PDict [("error", PStr (exn_str e))]) |})).
Proof.
  intros Hjson Hurl Hfail.
  rewrite (get_transcript_with_url req d url Hjson Hurl).
  rewrite (get_video_transcript_failure url e Hfail). reflexivity.
Qed.

Lemma C2_witness :
  get_transcript
    (mk_request POST "/api/transcript" (Some "203.0.113.7") None
       (Parsed (PDict [("url", PStr "https://youtu.be/")])))
  = LoggerError "Error fetching transcript: Invalid YouTube URL"
      (LoggerError "Error in transcript endpoint: Invalid YouTube URL"
         (Ret {| status := 500;
                 headers := [("Content-Type", "application/json")];
                 data := Json (PDict [("error", PStr "Invalid YouTube URL")]) |})).
Proof.
  apply (C2_resolver_failure_is_500 _ [("url", PStr "https://youtu.be/")]
           (PStr "https://youtu.be/") invalid_youtube_url);
    reflexivity.
Defined.

(** C8 as the specification states it fails: on "not a url" the resolver
    does not fail. *)
Lemma C8_counterexample : ~ (exists e : exn, resolve "not a url" = Raise e).
Proof. intros [e H]. vm_compute in H. discriminate. Qed.

(** C8, amended.  For the url "not a url" the resolver succeeds: there is
    no host, and the text is its own non-empty last path segment.  The
    transcript library is called with the identifier "not a url"; when
    the library fails the view answers 500 with the library's message in
    the [error] field, and when it returns a transcript the view answers
    200 with that transcript. *)
Theorem C8_not_a_url_reaches_the_library (library : string -> answer)
    (req : request) (d : list (string * pyval)) :
  json req = Parsed (PDict d) ->
  dict_get d "url" = Some (PStr "not a url") ->
  resolve "not a url" = Ok "not a url"
  /\ run library (get_transcript req)
     = match library "not a url" with
       | Transcript transcript =>
           ([Fetched "not a url"],
            Ok {| status := 200;
                  headers := [("Content-Type", "application/json")];
                  data := Json (PDict [("transcript", transcript)]) |})
       | Failure e =>
           ([Fetched "not a url";
             Logged ("Error fetching transcript: " +:+ exn_str e);
             Logged ("Error in transcript endpoint: " +:+ exn_str e)],
            Ok {| status := 500;
                  headers := [("Content-Type", "application/json")];
                  data := Json (PDict [("error", PStr (exn_str e))]) |})
       end.
Proof.
  intros Hjson Hurl. split; [reflexivity |].
  rewrite (get_transcript_with_url req d _ Hjson Hurl).
  unfold get_video_transcript.
  change (resolve_value (PStr "not a url")) with (@Ok string "not a url").
  cbn [lift mbind io_bind bind try_except run].
  by destruct (library "not a url").
Qed.

Lemma C8_witness :
  resolve "not a url" = Ok "not a url"
  /\ run (fun _ => Failure (raise_ (LibraryError "VideoUnavailable") "The video is no longer available"))
       (get_transcript
          (mk_request POST "/api/transcript" (Some "203.0.113.7") None
             (Parsed (PDict [("url", PStr "not a url")]))))
     = ([Fetched "not a url";
         Logged "Error fetching transcript: The video is no longer available";
         Logged "Error in transcript endpoint: The video is no longer available"],
        Ok {| status := 500;
              headers := [("Content-Type", "application/json")];
              data := Json (PDict [("error", PStr "The video is no longer available")]) |}).
Proof.
  apply (C8_not_a_url_reaches_the_library
           (fun _ => Failure (raise_ (LibraryError "VideoUnavailable")
                                "The video is no longer available"))
           _ [("url", PStr "not a url")]);
    reflexivity.
Defined.

(** C3 fails on the code.  A client that has no open window sends
    eleven [GET /], the last ten less than sixty seconds after the first.
    The limiter refuses the eleventh, but the refusal is an exception, the
    handler registered for [Exception] takes it, and the client reads
    status 500 where the claim says 429. *)
Theorem C3_eleventh_request_is_answered_500 (st : storage) (address : string)
    (first : process * request) (later : list (process * request))
    (p : process) (req : request) :
  match st !! key_for address "home" home_limit with
  | Some (_, expires) => (expires <= time_time (fst first))%Z
  | None => True
  end ->
  Forall (fun arrival =>
            method (snd arrival) = GET /\ req_path (snd arrival) = "/"
            /\ get_remote_address (snd arrival) = address
            /\ (time_time (fst arrival) < time_time (fst first) + 60)%Z)
    (first :: later) ->
  later !! 9%nat = Some (p, req) ->
  serve st (first :: later) !! 10%nat
  = Some (LoggerError "An error occurred: 429 Too Many Requests: 10 per 1 minute"
            (Ret (process_response req
                    {| status := 500;
                       headers := [("Content-Type", "application/json")];
                       data := Json
                                 (PDict
                                    [("error",
                                      PStr "429 Too Many Requests: 10 per 1 minute");
                                     ("status", PStr "error")]) |}))).
Proof.
  intros Hfresh Hall Hlast. destruct first as [p0 req0].
  apply Forall_cons in Hall as [(Hmethod & Hpath & Haddr & _) Hall].
  simpl in Hmethod, Hpath, Haddr, Hfresh, Hall. subst address.
  cbn [serve]. rewrite (wsgi_app_home_fresh p0 st req0 Hmethod Hpath Hfresh).
  simpl.
  by rewrite (serve_home_counted _ _ later _ 1%nat (lookup_insert_eq _ _ _) Hall
                9%nat p req Hlast).
Qed.

Lemma C3_witness :
  let req := mk_request GET "/" (Some "203.0.113.7") None (Parsed PNone) in
  let arrivals :=
    map (fun t => (mk_process t None, req)) [0; 1; 2; 3; 4; 5; 6; 7; 8; 9; 10]%Z in
  serve ∅ arrivals !! 10%nat
  = Some (LoggerError "An error occurred: 429 Too Many Requests: 10 per 1 minute"
            (Ret (process_response req
                    {| status := 500;
                       headers := [("Content-Type", "application/json")];
                       data := Json
                                 (PDict
                                    [("error",
                                      PStr "429 Too Many Requests: 10 per 1 minute");
                                     ("status", PStr "error")]) |}))).
Proof.
  intros req arrivals.
  apply (C3_eleventh_request_is_answered_500 ∅ "203.0.113.7"
           (mk_process 0 None, req)
           (map (fun t => (mk_process t None, req)) [1; 2; 3; 4; 5; 6; 7; 8; 9; 10]%Z)
           (mk_process 10 None) req).
  - vm_compute. exact I.
  - simpl. repeat constructor.
  - reflexivity.
Defined.

(** C9.  Every response the server produces, whatever its status, carries
    each of the four security headers once, with exactly the value the
    specification gives. *)
Theorem C9_security_headers_on_every_response (p : process) (st : storage)
    (req : request) (response : Response) :
  returns (fst (wsgi_app p st req)) response ->
  getlist "X-Content-Type-Options" (headers response) = ["nosniff"]
  /\ getlist "X-Frame-Options" (headers response) = ["DENY"]
  /\ getlist "X-XSS-Protection" (headers response) = ["1; mode=block"]
  /\ getlist "Strict-Transport-Security" (headers response)
     = ["max-age=31536000; includeSubDomains"].
Proof.
  intros Hreturns.
  apply (all_returns_returns
           (fun r =>
              getlist "X-Content-Type-Options" (headers r) = ["nosniff"]
              /\ getlist "X-Frame-Options" (headers r) = ["DENY"]
              /\ getlist "X-XSS-Protection" (headers r) = ["1; mode=block"]
              /\ getlist "Strict-Transport-Security" (headers r)
                 = ["max-age=31536000; includeSubDomains"])
           (fst (wsgi_app p st req)) response); [| exact Hreturns].
  apply wsgi_app_processed. intros rv. apply process_response_getlist.
Qed.

Lemma C9_witness :
  let response :=
    process_response
      (mk_request GET "/favicon.ico" None None (Parsed PNone))
      (with_status 204 (text_response "")) in
  getlist "X-Content-Type-Options" (headers response) = ["nosniff"]
  /\ getlist "X-Frame-Options" (headers response) = ["DENY"]
  /\ getlist "X-XSS-Protection" (headers response) = ["1; mode=block"]
  /\ getlist "Strict-Transport-Security" (headers response)
     = ["max-age=31536000; includeSubDomains"].
Proof.
  apply (C9_security_headers_on_every_response (mk_process 0 None) ∅
           (mk_request GET "/favicon.ico" None None (Parsed PNone))).
  vm_compute. apply returns_ret.
Defined.

(* ===================================================================== *)
(** * More facts about strings and [urlsplit] *)
(* ===================================================================== *)

Module ParsingFacts.
Import PyStr Py PyVal Urllib Resolver PyStrFacts UrllibFacts ResolverFacts.

#[local] Arguments String.append !_ _ / : simpl nomatch.

Lemma forall_chars_append p (a b : string) :
  forall_chars p (a +:+ b) = forall_chars p a && forall_chars p b.
Proof.
  induction a as [|c a IH]; simpl; [reflexivity | by rewrite IH, andb_assoc].
Qed.

Lemma has_char_lstrip c p (s : string) :
  has_char c s = false -> has_char c (lstrip p s) = false.
Proof.
  induction s as [|d s IH]; simpl; [done |]. intros H.
  apply orb_false_iff in H as [Hd Hs].
  destruct (p d); [by apply IH | simpl; by rewrite Hd, Hs].
Qed.

Lemma has_char_remove_chars c p (s : string) :
  has_char c s = false -> has_char c (remove_chars p s) = false.
Proof.
  induction s as [|d s IH]; simpl; [done |]. intros H.
  apply orb_false_iff in H as [Hd Hs].
  destruct (p d); [by apply IH | simpl; by rewrite Hd, IH].
Qed.

(** [lstrip] stops at the first character it does not strip. *)
Lemma lstrip_append_kept p (a : string) c (b : string) :
  p c = false -> lstrip p (a +:+ String c b) = lstrip p a +:+ String c b.
Proof.
  intros Hc. induction a as [|d a IH]; simpl; [by rewrite Hc |].
  destruct (p d); [exact IH | reflexivity].
Qed.

Lemma lstrip_all p (ws s : string) :
  forall_chars p ws = true -> lstrip p (ws +:+ s) = lstrip p s.
Proof.
  induction ws as [|c ws IH]; simpl; [done |]. intros H.
  apply andb_true_iff in H as [-> Hws]. by apply IH.
Qed.

Lemma partition_Some sep (s h t : string) :
  partition sep s = (h, Some t) ->
  s = h +:+ String sep t /\ has_char sep h = false.
Proof.
  revert h. induction s as [|c s IH]; simpl; intros h H; [discriminate |].
  destruct (Ascii.eqb_spec c sep) as [->|Hne].
  - by inversion H.
  - destruct (partition sep s) as [h' t'] eqn:E. inversion H; subst.
    destruct (IH h' eq_refl) as [-> Hh]. simpl. split; [reflexivity |].
    rewrite Hh, orb_false_r. by apply Ascii.eqb_neq.
Qed.

Lemma partition_append_Some sep (a b h t : string) :
  partition sep a = (h, Some t) -> partition sep (a +:+ b) = (h, Some (t +:+ b)).
Proof.
  intros H. apply partition_Some in H as [-> Hh].
  rewrite append_assoc. simpl. by apply partition_no_sep.
Qed.

(** [break_at] does not look beyond a character it breaks at. *)
Lemma break_at_append_break p (a : string) c (b : string) :
  p c = true ->
  break_at p (a +:+ String c b)
  = (fst (break_at p a), snd (break_at p a) +:+ String c b).
Proof.
  intros Hc. induction a as [|d a IH]; simpl; [by rewrite Hc |].
  destruct (p d); [reflexivity |].
  rewrite IH. by destruct (break_at p a).
Qed.

Lemma has_char_break_at c p (s : string) :
  has_char c s = false -> has_char c (snd (break_at p s)) = false.
Proof.
  induction s as [|d s IH]; simpl; [done |]. intros H.
  destruct (p d); [exact H |].
  apply orb_false_iff in H as [_ Hs]. specialize (IH Hs).
  by destruct (break_at p s).
Qed.

Lemma has_char_drop c n (s : string) :
  has_char c s = false -> has_char c (drop n s) = false.
Proof.
  revert s. induction n as [|n IH]; intros s H; [by destruct s |].
  destruct s as [|d s]; [done |]. simpl in *.
  apply orb_false_iff in H as [_ Hs]. by apply IH.
Qed.

(** ** A fragment after the URL *)

Section Fragment.
Variable hash_free : string.
Variable frag : string.
Hypothesis no_hash : has_char "#" hash_free = false.

Lemma split_scheme_fragment :
  split_scheme (hash_free +:+ String "#" frag)
  = (fst (split_scheme hash_free),
     snd (split_scheme hash_free) +:+ String "#" frag)
  /\ has_char "#" (snd (split_scheme hash_free)) = false.
Proof.
  unfold split_scheme.
  destruct (partition ":" hash_free) as [h [t|]] eqn:E.
  - rewrite (partition_append_Some _ _ (String "#" frag) _ _ E).
    apply partition_Some in E as [E Hh].
    assert (has_char "#" t = false) as Ht.
    { rewrite E, has_char_append in no_hash.
      apply orb_false_iff in no_hash as [_ H]. simpl in H. exact H. }
    destruct h as [|c0 pre']; [done |].
    by destruct (is_ascii_alpha c0 && _).
  - assert (has_char ":" hash_free = false) as Hcolon.
    { destruct (has_char ":" hash_free) eqn:Hc; [| reflexivity].
      assert (forall s, has_char ":" s = true -> exists h t, partition ":" s = (h, Some t))
        as Hex.
      { clear. induction s as [|c s IH]; simpl; [discriminate |]. intros H.
        destruct (Ascii.eqb c ":"); [by eexists _, _ |].
        destruct (IH H) as (h & t & ->). by eexists _, _. }
      destruct (Hex _ Hc) as (h' & t' & E'). congruence. }
    rewrite (partition_append_no_sep _ _ _ Hcolon).
    assert (h = hash_free) as ->.
    { rewrite (partition_no_char _ _ Hcolon) in E. congruence. }
    simpl partition. destruct (partition ":" frag) as [fh ft]. cbn [fst snd].
    split.
    + destruct hash_free as [|c0 pre']; simpl.
      * by destruct ft.
      * destruct ft; [| by destruct pre'].
        rewrite forall_chars_append. simpl.
        by rewrite !andb_false_r, ?andb_false_l.
    + by destruct hash_free.
Qed.

End Fragment.

Lemma prefix_slashes_fragment (s frag : string) :
  has_char "#" s = false ->
  String.prefix "//" (s +:+ String "#" frag) = String.prefix "//" s.
Proof.
  intros H. destruct s as [|c1 [|c2 s]]; cbn -[ascii_dec]; [reflexivity | |].
  - by destruct (ascii_dec "/" c1).
  - destruct (ascii_dec "/" c1), (ascii_dec "/" c2); try reflexivity.
    by destruct s.
Qed.

Lemma drop_slashes_append (s rest : string) :
  String.prefix "//" s = true -> drop 2 (s +:+ rest) = drop 2 s +:+ rest.
Proof.
  destruct s as [|c1 [|c2 s]]; cbn -[ascii_dec]; [discriminate | | reflexivity].
  by destruct (ascii_dec "/" c1).
Qed.

(** The text after the first [#] is the fragment and nothing else. *)
Lemma urlsplit_fragment (url frag : string) :
  has_char "#" url = false ->
  urlsplit (url +:+ String "#" frag)
  = (fun sr =>
       mk_SplitResult (sr_scheme sr) (sr_netloc sr) (sr_path sr) (sr_query sr)
         (remove_chars is_unsafe_url_byte frag)) <$> urlsplit url.
Proof.
  intros Hurl. unfold urlsplit.
  rewrite (lstrip_append_kept _ _ "#" _ eq_refl), remove_chars_append.
  change (remove_chars is_unsafe_url_byte (String "#" frag))
    with (String "#" (remove_chars is_unsafe_url_byte frag)).
  set (f := remove_chars is_unsafe_url_byte frag).
  set (u := remove_chars is_unsafe_url_byte (lstrip is_c0_control_or_space url)).
  assert (has_char "#" u = false) as Hu
    by (by apply has_char_remove_chars, has_char_lstrip).
  destruct (split_scheme_fragment u f Hu) as [-> Hs].
  destruct (split_scheme u) as [sch s]. cbn [fst snd] in *.
  rewrite (prefix_slashes_fragment s f Hs).
  assert (forall nl r : string,
            has_char "#" r = false ->
            (let '(url0, fragment) :=
               if has_char "#" (r +:+ String "#" f)
               then match partition "#" (r +:+ String "#" f) with
                    | (h, Some t) => (h, t)
                    | (h, None) => (h, EmptyString)
                    end
               else (r +:+ String "#" f, EmptyString) in
             let '(url1, query) :=
               if has_char "?" url0
               then match partition "?" url0 with
                    | (h, Some t) => (h, t)
                    | (h, None) => (h, EmptyString)
                    end
               else (url0, EmptyString) in
             _ ← _checknetloc nl;
             Ok (mk_SplitResult sch nl url1 query fragment))
            = (fun sr =>
                 mk_SplitResult (sr_scheme sr) (sr_netloc sr) (sr_path sr)
                   (sr_query sr) f)
              <$> (let '(url0, fragment) :=
                     if has_char "#" r
                     then match partition "#" r with
                          | (h, Some t) => (h, t)
                          | (h, None) => (h, EmptyString)
                          end
                     else (r, EmptyString) in
                   let '(url1, query) :=
                     if has_char "?" url0
                     then match partition "?" url0 with
                          | (h, Some t) => (h, t)
                          | (h, None) => (h, EmptyString)
                          end
                     else (url0, EmptyString) in
                   _ ← _checknetloc nl;
                   Ok (mk_SplitResult sch nl url1 query fragment)))
    as Htail.
  { intros nl r Hr. rewrite !(cut_at "#").
    rewrite (partition_no_sep "#" r f Hr), (partition_no_char "#" r Hr).
    cbn [fst snd default]. rewrite (cut_at "?").
    by destruct (_checknetloc nl) as [[]| |]. }
  destruct (String.prefix "//" s) eqn:Hprefix.
  - unfold _splitnetloc. rewrite (drop_slashes_append s _ Hprefix).
    rewrite (break_at_append_break _ _ "#" _ eq_refl).
    pose proof (has_char_break_at "#" (fun c => char_in c "/?#") (drop 2 s)
                  (has_char_drop "#" 2 s Hs)) as Hr.
    destruct (break_at (fun c => char_in c "/?#") (drop 2 s)) as [nl r].
    cbn [fst snd] in *.
    destruct (has_char "[" nl && negb (has_char "]" nl)
              || has_char "]" nl && negb (has_char "[" nl)); [reflexivity |].
    destruct (has_char "[" nl && has_char "]" nl).
    + destruct (_check_bracketed_netloc nl) as [[]| |]; try reflexivity.
      apply (Htail nl r Hr).
    + apply (Htail nl r Hr).
  - apply (Htail "" s Hs).
Qed.

Lemma urlparse_fragment (url frag : string) :
  has_char "#" url = false ->
  urlparse (url +:+ String "#" frag)
  = (fun p =>
       mk_ParseResult (scheme p) (netloc p) (path p) (params p) (query p)
         (remove_chars is_unsafe_url_byte frag)) <$> urlparse url.
Proof.
  intros Hurl. unfold urlparse. rewrite (urlsplit_fragment url frag Hurl).
  destruct (urlsplit url) as [[sch nl pa qu fr]| |]; try reflexivity.
  simpl. by destruct (bool_decide (sch ∈ uses_params) && has_char ";" pa);
    [destruct (_splitparams pa) |].
Qed.

(** ** What [urlsplit] reads of its argument *)

Lemma urlsplit_cleaned (url url' : string) :
  remove_chars is_unsafe_url_byte (lstrip is_c0_control_or_space url)
  = remove_chars is_unsafe_url_byte (lstrip is_c0_control_or_space url') ->
  urlsplit url = urlsplit url'.
Proof. intros H. unfold urlsplit. by rewrite H. Qed.

Lemma unsafe_is_stripped c :
  is_unsafe_url_byte c = true -> is_c0_control_or_space c = true.
Proof. destruct c as [[] [] [] [] [] [] [] []]; (reflexivity || discriminate). Qed.

Lemma cleaned_without_unsafe (a : string) c (b : string) :
  is_unsafe_url_byte c = true ->
  remove_chars is_unsafe_url_byte (lstrip is_c0_control_or_space (a +:+ String c b))
  = remove_chars is_unsafe_url_byte (lstrip is_c0_control_or_space (a +:+ b)).
Proof.
  intros Hc. induction a as [|d a IH]; simpl.
  - by rewrite (unsafe_is_stripped c Hc).
  - destruct (is_c0_control_or_space d); [exact IH |].
    simpl. rewrite !remove_chars_append. simpl. by rewrite Hc.
Qed.

(** ** The last field of a split and the first value of a name *)

Lemma split_singleton sep (s h : string) :
  split sep s = [h] -> s = h /\ has_char sep s = false.
Proof.
  revert h. induction s as [|c s IH]; simpl; intros h H; [by inversion H |].
  destruct (Ascii.eqb c sep) eqn:Hc.
  - pose proof (split_not_nil sep s). inversion H. congruence.
  - destruct (split sep s) as [|h' t'] eqn:E; [by destruct (split_not_nil sep s) |].
    inversion H; subst. destruct (IH h' eq_refl) as [-> Hs].
    by rewrite Hs.
Qed.

Lemma last_split sep (s x : string) :
  last (split sep s) = Some x ->
  has_char sep x = false /\ (s = x \/ exists pre, s = pre +:+ String sep x).
Proof.
  revert x. induction s as [|c s IH]; simpl; intros x H.
  - inversion H. by split; [| left].
  - destruct (Ascii.eqb_spec c sep) as [->|Hne].
    + pose proof (split_not_nil sep s) as Hnil.
      destruct (split sep s) as [|h t] eqn:E; [done |].
      destruct (IH x H) as [Hx [-> | [pre ->]]]; (split; [exact Hx |]); right.
      * by exists "".
      * by exists (String sep pre).
    + destruct (split sep s) as [|h [|t0 t]] eqn:E.
      * by destruct (split_not_nil sep s).
      * inversion H; subst. destruct (split_singleton sep s h E) as [-> Hs].
        simpl. split; [| by left].
        rewrite Hs, orb_false_r. by apply Ascii.eqb_neq.
      * destruct (IH x H) as [Hx [-> | [pre ->]]]; (split; [exact Hx |]).
        -- rewrite (split_no_sep sep x Hx) in E. discriminate.
        -- right. by exists (String c pre).
Qed.

Lemma values_named_first name pairs v rest :
  values_named name pairs = v :: rest ->
  exists before after,
    pairs = before ++ (name, v) :: after /\ name ∉ map fst before.
Proof.
  induction pairs as [|[n w] pairs IH]; simpl; [discriminate |].
  destruct (String.eqb_spec n name) as [->|Hne]; intros H.
  - inversion H; subst. exists [], pairs. split; [reflexivity |].
    apply not_elem_of_nil.
  - destruct (IH H) as (before & after & -> & Hbefore).
    exists ((n, w) :: before), after. split; [reflexivity |].
    simpl. apply not_elem_of_cons. split; [congruence | exact Hbefore].
Qed.

(** ** What the resolver returns and raises *)

Lemma resolve_Ok_nonempty url id : resolve url = Ok id -> id <> "".
Proof.
  unfold resolve. destruct (urlparse url) as [p| |]; simpl; try discriminate.
  destruct (if contains "youtube.com" (netloc p) then _ else _)
    as [[[|c s]|]| |]; simpl; intros H; simplify_eq. discriminate.
Qed.

Lemma resolve_raises_ValueError url e :
  resolve url = Raise e -> exn_class e = ValueError.
Proof.
  destruct (urlparse url) as [p| |] eqn:Hp.
  - destruct (contains "youtube.com" (netloc p)) eqn:Hhost.
    + rewrite (resolve_youtube url p Hp Hhost).
      destruct (values_named _ _) as [|[|c s] ?]; intros H; by simplify_eq.
    + rewrite (resolve_other url p Hp Hhost).
      destruct (last _) as [[|c s]|]; intros H; by simplify_eq.
  - unfold resolve. rewrite Hp. simpl. intros H. simplify_eq.
    by apply (urlparse_raises_ValueError url).
  - unfold resolve. by rewrite Hp.
Qed.

Lemma resolve_fragment (url frag : string) :
  has_char "#" url = false ->
  resolve (url +:+ String "#" frag) = resolve url.
Proof.
  intros Hurl. unfold resolve. rewrite (urlparse_fragment url frag Hurl).
  by destruct (urlparse url).
Qed.

Lemma resolve_cleaned (url url' : string) :
  remove_chars is_unsafe_url_byte (lstrip is_c0_control_or_space url)
  = remove_chars is_unsafe_url_byte (lstrip is_c0_control_or_space url') ->
  resolve url = resolve url'.
Proof.
  intros H. unfold resolve, urlparse. by rewrite (urlsplit_cleaned url url' H).
Qed.


End ParsingFacts.

(* ===================================================================== *)
(** * More facts about header lists *)
(* ===================================================================== *)

Module HeaderFacts.
Import PyStr Werkzeug WerkzeugFacts.

Lemma filter_twice {A} (f : A -> bool) (l : list A) :
  List.filter f (List.filter f l) = List.filter f l.
Proof.
  induction l as [|x l IH]; simpl; [reflexivity |].
  destruct (f x) eqn:E; simpl; [by rewrite E, IH | exact IH].
Qed.

Lemma filter_swap {A} (f g : A -> bool) (l : list A) :
  List.filter f (List.filter g l) = List.filter g (List.filter f l).
Proof.
  induction l as [|x l IH]; simpl; [reflexivity |].
  destruct (g x) eqn:Eg, (f x) eqn:Ef; simpl; rewrite ?Eg, ?Ef, IH; reflexivity.
Qed.

(** Setting a header twice is setting it once. *)
Lemma set_twice key value (h : Headers) :
  set key value (set key value h) = set key value h.
Proof.
  induction h as [|[k v] h IH]; simpl.
  - by rewrite same_key_refl.
  - destruct (same_key key k) eqn:E; simpl.
    + by rewrite same_key_refl, filter_twice.
    + by rewrite E, IH.
Qed.

(** Removing the entries of one key and setting another key commute. *)
Lemma filter_set_other key key' value' (h : Headers) :
  same_key key key' = false ->
  List.filter (fun kv => negb (same_key key (fst kv))) (set key' value' h)
  = set key' value' (List.filter (fun kv => negb (same_key key (fst kv))) h).
Proof.
  intros Hne. induction h as [|[k v] h IH]; simpl.
  - by rewrite Hne.
  - destruct (same_key key' k) eqn:E'.
    + assert (same_key key k = false) as E
        by (by rewrite (same_key_trans key' k key E')).
      simpl. rewrite Hne, E. simpl. rewrite E'. f_equal. apply filter_swap.
    + simpl. destruct (same_key key k) eqn:E; simpl; [exact IH |].
      by rewrite E', IH.
Qed.

(** A header list on which [set key value] changes nothing stays so
    when another key is set. *)
Lemma set_fixed_other key value key' value' (h : Headers) :
  same_key key key' = false ->
  set key value h = h ->
  set key value (set key' value' h) = set key' value' h.
Proof.
  intros Hne. assert (same_key key' key = false) as Hne'
    by (by rewrite same_key_sym).
  induction h as [|[k v] h IH]; simpl; [discriminate |].
  destruct (same_key key k) eqn:E.
  - intros Hfix. inversion Hfix as [[Hk Hv Hrest]]. subst k v.
    rewrite Hrest, Hne'. simpl. rewrite same_key_refl. f_equal.
    by rewrite (filter_set_other key key' value' h Hne), Hrest.
  - intros Hfix. inversion Hfix as [Hrest]. rewrite Hrest.
    destruct (same_key key' k) eqn:E'; simpl.
    + rewrite Hne. f_equal.
      assert (forall l : Headers,
                set key value
                  (List.filter (fun kv => negb (same_key key' (fst kv))) l)
                = List.filter (fun kv => negb (same_key key' (fst kv)))
                    (set key value l)) as Hcomm
        by (intros l; symmetry; by apply filter_set_other).
      by rewrite Hcomm, Hrest.
    + rewrite E. f_equal. by apply IH.
Qed.

End HeaderFacts.

(* ===================================================================== *)
(** * More facts about the transcript view *)
(* ===================================================================== *)

Module ViewFacts.
Import PyStr Py PyVal Effects Urllib Resolver Werkzeug Limits Server.
Import EffectsFacts ServerFacts ParsingFacts.

Lemma resolve_value_Ok_nonempty url id : resolve_value url = Ok id -> id <> "".
Proof.
  destruct url as [|b|z|f|s|l|d]; simpl;
    try (by apply resolve_Ok_nonempty); by repeat case_match.
Qed.

(** One run of [get_video_transcript] on a value the resolver accepts. *)
Lemma run_get_video_transcript_resolved library url id :
  resolve_value url = Ok id ->
  run library (get_video_transcript url)
  = match library id with
    | Transcript transcript => ([Fetched id], Ok transcript)
    | Failure e =>
        ([Fetched id; Logged ("Error fetching transcript: " +:+ exn_str e)],
         Raise e)
    end.
Proof.
  intros Hid. unfold get_video_transcript. rewrite Hid.
  cbn [lift mbind io_bind bind try_except run].
  by destruct (library id).
Qed.

(** One run of the view on a body whose [url] the resolver accepts. *)
Lemma run_get_transcript_resolved library req d url id :
  json req = Parsed (PDict d) ->
  dict_get d "url" = Some url ->
  resolve_value url = Ok id ->
  run library (get_transcript req)
  = match library id with
    | Transcript transcript =>
        ([Fetched id],
         Ok {| status := 200;
               headers := [("Content-Type", "application/json")];
               data := Json (PDict [("transcript", transcript)]) |})
    | Failure e =>
        ([Fetched id;
          Logged ("Error fetching transcript: " +:+ exn_str e);
          Logged ("Error in transcript endpoint: " +:+ exn_str e)],
         Ok {| status := 500;
               headers := [("Content-Type", "application/json")];
               data := Json (PDict [("error", PStr (exn_str e))]) |})
    end.
Proof.
  intros Hjson Hurl Hid.
  rewrite (get_transcript_with_url req d url Hjson Hurl).
  unfold get_video_transcript. rewrite Hid.
  cbn [lift mbind io_bind bind try_except run].
  by destruct (library id).
Qed.

(** Without an identifier there is no call of the library. *)
Lemma get_transcript_unresolved_never_fetches req :
  (forall d url id, json req = Parsed (PDict d) -> dict_get d "url" = Some url ->
                    resolve_value url <> Ok id) ->
  never_fetches (get_transcript req).
Proof.
  intros Hno.
  destruct (json req) as [[|b|z|f|s|l|d]|e] eqn:Hjson;
    try (apply get_transcript_without_url_never_fetches; intros d' url' H;
         rewrite Hjson in H; discriminate).
  destruct (dict_get d "url") as [url|] eqn:Hurl.
  - rewrite (get_transcript_with_url req d url Hjson Hurl).
    unfold get_video_transcript.
    destruct (resolve_value url) as [id|e|] eqn:Hid; [| exact I | exact I].
    by destruct (Hno d url id eq_refl Hurl).
  - apply get_transcript_without_url_never_fetches. intros d' url' H.
    rewrite Hjson in H. inversion H; subst. by rewrite Hurl.
Qed.

(** Every call of the library is made with the identifier resolved from
    the body's [url]. *)
Lemma get_transcript_fetches_resolved library req id :
  Fetched id ∈ fst (run library (get_transcript req)) ->
  exists d url,
    json req = Parsed (PDict d) /\ dict_get d "url" = Some url
    /\ resolve_value url = Ok id.
Proof.
  intros Hin.
  destruct (json req) as [[|b|z|f|s|l|d]|e] eqn:Hjson;
    try (exfalso; revert Hin; apply never_fetches_run,
           get_transcript_without_url_never_fetches; intros d' url' H;
         rewrite Hjson in H; discriminate).
  destruct (dict_get d "url") as [url|] eqn:Hurl.
  - destruct (resolve_value url) as [id'|e|] eqn:Hid.
    + rewrite (run_get_transcript_resolved library req d url id' Hjson Hurl Hid)
        in Hin.
      exists d, url. repeat split; [done.. |].
      destruct (library id'); simpl in Hin;
        repeat (apply elem_of_cons in Hin as [Hin | Hin]; [by simplify_eq |]);
        by apply not_elem_of_nil in Hin.
    + exfalso. revert Hin. apply never_fetches_run,
        get_transcript_unresolved_never_fetches.
      intros d' url' id' H H'. rewrite Hjson in H. inversion H; subst.
      rewrite Hurl in H'. inversion H'; subst. by rewrite Hid.
    + exfalso. revert Hin. apply never_fetches_run,
        get_transcript_unresolved_never_fetches.
      intros d' url' id' H H'. rewrite Hjson in H. inversion H; subst.
      rewrite Hurl in H'. inversion H'; subst. by rewrite Hid.
  - exfalso. revert Hin. apply never_fetches_run,
      get_transcript_without_url_never_fetches. intros d' url' H.
    rewrite Hjson in H. inversion H; subst. by rewrite Hurl.
Qed.

(** The answers of the view: a transcript with status 200, or an error
    message with status 400 or 500. *)
Lemma get_transcript_shape req :
  all_returns
    (fun rv =>
       headers rv = [("Content-Type", "application/json")]
       /\ ((status rv = 200
            /\ exists transcript, data rv = Json (PDict [("transcript", transcript)]))
           \/ ((status rv = 400 \/ status rv = 500)
               /\ exists msg, data rv = Json (PDict [("error", PStr msg)]))))
    (get_transcript req).
Proof.
  unfold get_transcript. apply all_returns_try_except.
  - apply all_returns_bind. apply all_returns_trivial. intros data.
    apply all_returns_bind. apply all_returns_trivial. intros [|].
    + simpl. split; [reflexivity |]. right. split; [by left | by eexists].
    + apply all_returns_bind. apply all_returns_trivial. intros url.
      apply all_returns_bind. apply all_returns_trivial. intros t.
      simpl. split; [reflexivity |]. left. split; [reflexivity | by eexists].
  - intros e. simpl. split; [reflexivity |]. right. split; [by right | by eexists].
Qed.

Lemma get_transcript_never_throws req : never_throws (get_transcript req).
Proof. unfold get_transcript. apply never_throws_try_except. intros e. exact I. Qed.

(** With a body in which the membership test finds ["url"] the answer is
    not the 400. *)
Lemma get_transcript_not_400 req data :
  json req = Parsed data ->
  truthy data = true ->
  contains_str "url" data <> Ok false ->
  all_returns (fun rv => status rv <> 400) (get_transcript req).
Proof.
  intros Hjson Htruthy Hin. unfold get_transcript, get_json. rewrite Hjson.
  cbn [mbind io_bind bind]. rewrite Htruthy. cbn [negb].
  apply all_returns_try_except; [| intros e; simpl; discriminate].
  destruct (contains_str "url" data) as [[|]| |]; [| by destruct Hin | |].
  - cbn [lift mbind io_bind bind negb].
    apply all_returns_bind. apply all_returns_trivial. intros url.
    apply all_returns_bind. apply all_returns_trivial. intros t.
    simpl. discriminate.
  - exact I.
  - exact I.
Qed.

End ViewFacts.

(* ===================================================================== *)
(** * More facts about the limiter *)
(* ===================================================================== *)

Module LimiterFacts.
Import PyStr Py PyVal Effects Werkzeug Limits Server.
Import EffectsFacts ServerFacts.

(** ** The counters a request touches *)

Lemma incr_other now (key key' : counter_key) expiry (st : storage) :
  key <> key' -> snd (incr now key expiry st) !! key' = st !! key'.
Proof.
  intros Hne. unfold incr.
  destruct (st !! key) as [[count expires]|];
    [destruct (expires <=? now)%Z |]; simpl; by apply lookup_insert_ne.
Qed.

Lemma evaluate_limits_other now address scope limits :
  forall (st : storage) (key' : counter_key),
  fst key' <> (address, scope) ->
  snd (evaluate_limits now address scope limits st) !! key' = st !! key'.
Proof.
  induction limits as [|item limits IH]; intros st key' Hne; [reflexivity |].
  simpl. unfold hit.
  pose proof (incr_other now (key_for address scope item) key' (window item) st)
    as Hincr.
  destruct (incr now (key_for address scope item) (window item) st)
    as [count st']. simpl in Hincr.
  assert (key_for address scope item <> key') as Hkey
    by (intros <-; by apply Hne).
  destruct (count <=? amount item)%nat; simpl.
  - rewrite (IH st' key' Hne). by apply Hincr.
  - by apply Hincr.
Qed.

Lemma incr_agree now (key : counter_key) expiry (st1 st2 : storage) :
  st1 !! key = st2 !! key ->
  fst (incr now key expiry st1) = fst (incr now key expiry st2)
  /\ snd (incr now key expiry st1) !! key = snd (incr now key expiry st2) !! key.
Proof.
  intros H. unfold incr. rewrite <- H.
  destruct (st1 !! key) as [[count expires]|];
    [destruct (expires <=? now)%Z |]; simpl;
    (split; [reflexivity |]);
    (etrans; [apply lookup_insert_eq | symmetry; apply lookup_insert_eq]).
Qed.

(** The limiter reads and writes only the counters of the client and
    view at hand. *)
Lemma evaluate_limits_agree now address scope limits :
  forall st1 st2 : storage,
  (forall lim, st1 !! (address, scope, lim) = st2 !! (address, scope, lim)) ->
  fst (evaluate_limits now address scope limits st1)
  = fst (evaluate_limits now address scope limits st2)
  /\ (forall lim,
        snd (evaluate_limits now address scope limits st1) !! (address, scope, lim)
        = snd (evaluate_limits now address scope limits st2) !! (address, scope, lim)).
Proof.
  induction limits as [|item limits IH]; intros st1 st2 Hagree; [by split |].
  simpl. unfold hit.
  destruct (incr_agree now (key_for address scope item) (window item) st1 st2
              (Hagree _)) as [Hcount Hkey].
  assert (forall lim,
            snd (incr now (key_for address scope item) (window item) st1)
              !! (address, scope, lim)
            = snd (incr now (key_for address scope item) (window item) st2)
                !! (address, scope, lim)) as Hagree'.
  { intros lim.
    destruct (decide (key_for address scope item = (address, scope, lim)))
      as [<-|Hne]; [exact Hkey |].
    rewrite !incr_other by done. apply Hagree. }
  destruct (incr now (key_for address scope item) (window item) st1)
    as [count1 st1'].
  destruct (incr now (key_for address scope item) (window item) st2)
    as [count2 st2'].
  simpl in Hcount, Hagree'. subst count2.
  destruct (count1 <=? amount item)%nat; simpl.
  - by apply IH.
  - by split.
Qed.

Lemma wsgi_app_state p st req :
  snd (wsgi_app p st req) = snd (_check_request_limit p st req).
Proof. unfold wsgi_app. by destruct (_check_request_limit p st req). Qed.

Lemma wsgi_app_response p st req :
  fst (wsgi_app p st req)
  = try_except (full_dispatch_request p req (fst (_check_request_limit p st req)))
      (fun e => rv ← handle_exception e; Ret (process_response req rv)).
Proof. unfold wsgi_app. by destruct (_check_request_limit p st req). Qed.

Lemma endpoint_name_of_path req ep :
  match_request req = Ok ep -> url_map (req_path req) = Some ep.
Proof.
  unfold match_request. destruct (url_map (req_path req)) as [ep'|]; [| discriminate].
  destruct (allows ep' (method req)); [| discriminate]. by intros [= ->].
Qed.

(** ** A view with one limit *)

Section OneLimit.
Variable ep : endpoint.
Variable item : RateLimitItem.
Hypothesis one_limit : limits_of ep = [item].

Lemma check_request_limit_fresh p (st : storage) req :
  match_request req = Ok ep ->
  match st !! key_for (get_remote_address req) (endpoint_name ep) item with
  | Some (_, expires) => (expires <= time_time p)%Z
  | None => True
  end ->
  _check_request_limit p st req
  = (if (1 <=? amount item)%nat then Ok tt else Raise (rate_limit_exceeded item),
     <[key_for (get_remote_address req) (endpoint_name ep) item
       := (1%nat, (time_time p + window item)%Z)]> st).
Proof.
  intros Hmatch Hfresh. unfold _check_request_limit.
  rewrite Hmatch, one_limit. cbn [evaluate_limits]. unfold hit, incr.
  destruct (st !! key_for (get_remote_address req) (endpoint_name ep) item)
    as [[n expires]|].
  - destruct (expires <=? time_time p)%Z eqn:E; [| lia].
    by destruct (1 <=? amount item)%nat.
  - by destruct (1 <=? amount item)%nat.
Qed.

Lemma check_request_limit_counted p (st : storage) req n expires :
  match_request req = Ok ep ->
  st !! key_for (get_remote_address req) (endpoint_name ep) item
  = Some (n, expires) ->
  (time_time p < expires)%Z ->
  _check_request_limit p st req
  = (if (S n <=? amount item)%nat then Ok tt else Raise (rate_limit_exceeded item),
     <[key_for (get_remote_address req) (endpoint_name ep) item
       := (S n, expires)]> st).
Proof.
  intros Hmatch Hcounter Htime. unfold _check_request_limit.
  rewrite Hmatch, one_limit. cbn [evaluate_limits]. unfold hit, incr.
  rewrite Hcounter.
  destruct (expires <=? time_time p)%Z eqn:E; [lia |].
  by destruct (S n <=? amount item)%nat.
Qed.

(** The requests of one client within one window, once the counter has
    passed the limit: every one is refused. *)
Lemma serve_over_the_limit address expires arrivals :
  forall (st : storage) n,
  st !! key_for address (endpoint_name ep) item = Some (n, expires) ->
  Forall (fun arrival =>
            match_request (snd arrival) = Ok ep
            /\ get_remote_address (snd arrival) = address
            /\ (time_time (fst arrival) < expires)%Z) arrivals ->
  forall i p req, arrivals !! i = Some (p, req) ->
  (amount item < S (n + i))%nat ->
  serve st arrivals !! i
  = Some (LoggerError ("An error occurred: " +:+ exn_str (rate_limit_exceeded item))
            (Ret (process_response req
                    {| status := 500;
                       headers := [("Content-Type", "application/json")];
                       data := Json
                                 (PDict
                                    [("error",
                                      PStr (exn_str (rate_limit_exceeded item)));
                                     ("status", PStr "error")]) |}))).
Proof.
  induction arrivals as [|[p0 req0] arrivals IH];
    intros st n Hcounter Hall i p req Hi Hover;
    [by rewrite lookup_nil in Hi |].
  apply Forall_cons in Hall as [(Hmatch & Haddr & Htime) Hall].
  simpl in Hmatch, Haddr, Htime. subst address.
  pose proof (check_request_limit_counted p0 st req0 n expires Hmatch Hcounter Htime)
    as Hcheck.
  cbn [serve].
  destruct (wsgi_app p0 st req0) as [response st'] eqn:Happ.
  assert (st' = <[key_for (get_remote_address req0) (endpoint_name ep) item
                  := (S n, expires)]> st) as ->.
  { change st' with (snd (response, st')). rewrite <- Happ, wsgi_app_state.
    by rewrite Hcheck. }
  destruct i as [|i]; simpl in Hi.
  - inversion Hi; subst p0 req0. rewrite Nat.add_0_r in Hover.
    assert ((S n <=? amount item)%nat = false) as Hleb
      by (apply Nat.leb_gt; lia).
    rewrite Hleb in Hcheck.
    rewrite (refused_request_is_answered_500 _ _ _ _ _ Hcheck) in Happ.
    simpl. by inversion Happ.
  - simpl. apply (IH _ (S n) (lookup_insert_eq _ _ _) Hall i p req Hi). lia.
Qed.

End OneLimit.

(** ** A view with the default limits *)

Section DefaultLimits.
Variable ep : endpoint.
Hypothesis defaults : limits_of ep = default_limits.

#[local] Notation "'hourly'" := (per_hour 50 "50 per 1 hour").
#[local] Notation "'daily'" := (per_day 200 "200 per 1 day").

Lemma check_default_limits_fresh p (st : storage) req :
  match_request req = Ok ep ->
  match st !! key_for (get_remote_address req) (endpoint_name ep) hourly with
  | Some (_, expires) => (expires <= time_time p)%Z
  | None => True
  end ->
  match st !! key_for (get_remote_address req) (endpoint_name ep) daily with
  | Some (_, expires) => (expires <= time_time p)%Z
  | None => True
  end ->
  _check_request_limit p st req
  = (Ok tt,
     <[key_for (get_remote_address req) (endpoint_name ep) daily
       := (1%nat, (time_time p + 86400)%Z)]>
       (<[key_for (get_remote_address req) (endpoint_name ep) hourly
          := (1%nat, (time_time p + 3600)%Z)]> st)).
Proof.
  intros Hmatch Hhour Hday. unfold _check_request_limit.
  rewrite Hmatch, defaults. unfold default_limits.
  cbn [evaluate_limits]. unfold hit at 1. unfold incr at 1.
  assert (forall v : nat * Z,
            <[key_for (get_remote_address req) (endpoint_name ep) hourly := v]> st
              !! key_for (get_remote_address req) (endpoint_name ep) daily
            = st !! key_for (get_remote_address req) (endpoint_name ep) daily)
    as Hother by (intros v; by apply lookup_insert_ne).
  destruct (st !! key_for (get_remote_address req) (endpoint_name ep) hourly)
    as [[n expires]|].
  - destruct (expires <=? time_time p)%Z eqn:E; [| lia].
    cbn [amount window per_hour Nat.leb]. unfold hit, incr.
    rewrite Hother.
    destruct (st !! key_for (get_remote_address req) (endpoint_name ep) daily)
      as [[m expires']|]; [| reflexivity].
    by destruct (expires' <=? time_time p)%Z eqn:E'; [| lia].
  - cbn [amount window per_hour Nat.leb]. unfold hit, incr.
    rewrite Hother.
    destruct (st !! key_for (get_remote_address req) (endpoint_name ep) daily)
      as [[m expires']|]; [| reflexivity].
    by destruct (expires' <=? time_time p)%Z eqn:E'; [| lia].
Qed.

Lemma check_default_limits_counted p (st : storage) req n m hour_ends day_ends :
  match_request req = Ok ep ->
  st !! key_for (get_remote_address req) (endpoint_name ep) hourly
  = Some (n, hour_ends) ->
  st !! key_for (get_remote_address req) (endpoint_name ep) daily
  = Some (m, day_ends) ->
  (time_time p < hour_ends)%Z -> (time_time p < day_ends)%Z ->
  (m <= n)%nat ->
  _check_request_limit p st req
  = if (S n <=? 50)%nat
    then (Ok tt,
          <[key_for (get_remote_address req) (endpoint_name ep) daily
            := (S m, day_ends)]>
            (<[key_for (get_remote_address req) (endpoint_name ep) hourly
               := (S n, hour_ends)]> st))
    else (Raise (rate_limit_exceeded hourly),
          <[key_for (get_remote_address req) (endpoint_name ep) hourly
            := (S n, hour_ends)]> st).
Proof.
  intros Hmatch Hhour Hday Hthour Htday Hmn. unfold _check_request_limit.
  rewrite Hmatch, defaults. unfold default_limits.
  cbn [evaluate_limits]. unfold hit at 1. unfold incr at 1. rewrite Hhour.
  destruct (hour_ends <=? time_time p)%Z eqn:E; [lia |].
  cbn [amount window per_hour].
  destruct (S n <=? 50)%nat eqn:Hwithin; [| reflexivity].
  unfold hit, incr.
  assert (<[key_for (get_remote_address req) (endpoint_name ep) hourly
            := (S n, hour_ends)]> st
            !! key_for (get_remote_address req) (endpoint_name ep) daily
          = Some (m, day_ends)) as ->
    by (rewrite <- Hday; by apply lookup_insert_ne).
  destruct (day_ends <=? time_time p)%Z eqn:E'; [lia |].
  cbn [amount window per_day].
  apply Nat.leb_le in Hwithin.
  assert ((S m <=? 200)%nat = true) as -> by (apply Nat.leb_le; lia).
  reflexivity.
Qed.

(** The requests of one client within the hour, once the hourly counter
    has passed fifty: every one is refused. *)
Lemma serve_over_the_default_limit address hour_ends day_ends arrivals :
  forall (st : storage) n m,
  st !! key_for address (endpoint_name ep) hourly = Some (n, hour_ends) ->
  st !! key_for address (endpoint_name ep) daily = Some (m, day_ends) ->
  (m <= n)%nat ->
  Forall (fun arrival =>
            match_request (snd arrival) = Ok ep
            /\ get_remote_address (snd arrival) = address
            /\ (time_time (fst arrival) < hour_ends)%Z
            /\ (time_time (fst arrival) < day_ends)%Z) arrivals ->
  forall i p req, arrivals !! i = Some (p, req) ->
  (50 < S (n + i))%nat ->
  serve st arrivals !! i
  = Some (LoggerError "An error occurred: 429 Too Many Requests: 50 per 1 hour"
            (Ret (process_response req
                    {| status := 500;
                       headers := [("Content-Type", "application/json")];
                       data := Json
                                 (PDict
                                    [("error",
                                      PStr "429 Too Many Requests: 50 per 1 hour");
                                     ("status", PStr "error")]) |}))).
Proof.
  induction arrivals as [|[p0 req0] arrivals IH];
    intros st n m Hhour Hday Hmn Hall i p req Hi Hover;
    [by rewrite lookup_nil in Hi |].
  apply Forall_cons in Hall as [(Hmatch & Haddr & Hthour & Htday) Hall].
  simpl in Hmatch, Haddr, Hthour, Htday. subst address.
  pose proof (check_default_limits_counted p0 st req0 n m hour_ends day_ends
                Hmatch Hhour Hday Hthour Htday Hmn) as Hcheck.
  cbn [serve].
  destruct (wsgi_app p0 st req0) as [response st'] eqn:Happ.
  assert (st' = snd (_check_request_limit p0 st req0)) as Hst'.
  { change st' with (snd (response, st')). by rewrite <- Happ, wsgi_app_state. }
  destruct i as [|i]; simpl in Hi.
  - inversion Hi; subst p0 req0. rewrite Nat.add_0_r in Hover.
    assert ((S n <=? 50)%nat = false) as Hleb by (apply Nat.leb_gt; lia).
    rewrite Hleb in Hcheck.
    rewrite (refused_request_is_answered_500 _ _ _ _ _ Hcheck) in Happ.
    simpl. by inversion Happ.
  - simpl. rewrite Hst', Hcheck.
    destruct (S n <=? 50)%nat eqn:Hwithin; simpl.
    + refine (IH _ (S n) (S m) _ _ _ Hall i p req Hi _); [| | lia | lia].
      * etrans; [by apply lookup_insert_ne | apply lookup_insert_eq].
      * apply lookup_insert_eq.
    + refine (IH _ (S n) m _ _ _ Hall i p req Hi _); [| | lia | lia].
      * apply lookup_insert_eq.
      * rewrite <- Hday. by apply lookup_insert_ne.
Qed.

End DefaultLimits.

End LimiterFacts.

(* ===================================================================== *)
(** * More facts about the dispatch of a request *)
(* ===================================================================== *)

Module DispatchFacts.
Import PyStr Py PyVal Effects Werkzeug Limits Server.
Import EffectsFacts WerkzeugFacts ServerFacts HeaderFacts ViewFacts.

(** Every response of the server is what the hooks make of the result
    of a view, of the automatic [OPTIONS] response or of the error
    handler. *)
Lemma wsgi_app_from_views (Q : Response -> Prop) p st req :
  (forall ep, all_returns Q (view p req ep)) ->
  (forall ep, Q (make_default_options_response ep)) ->
  (forall e, all_returns Q (handle_error e)) ->
  all_returns
    (fun response => exists rv, Q rv /\ response = process_response req rv)
    (fst (wsgi_app p st req)).
Proof.
  intros Hview Hoptions Herror. unfold wsgi_app.
  destruct (_check_request_limit p st req) as [checked st']. simpl.
  apply all_returns_try_except.
  - unfold full_dispatch_request. apply all_returns_bind.
    apply (all_returns_impl Q); [intros rv H; simpl; by exists rv |].
    apply all_returns_try_except.
    + apply all_returns_bind. apply all_returns_trivial. intros _.
      unfold dispatch_request. apply all_returns_bind.
      apply all_returns_trivial. intros ep.
      destruct (method req); simpl; auto.
    + intros e. rewrite handle_user_exception_eq. apply Herror.
  - intros e. simpl. eexists. split; [| reflexivity].
    apply (Herror internal_server_error).
Qed.

Lemma add_security_headers_twice (response : Response) :
  add_security_headers (add_security_headers response)
  = add_security_headers response.
Proof.
  unfold add_security_headers, with_headers. cbn [headers status data].
  set (h := headers response). f_equal.
  set (h1 := set "X-Content-Type-Options" "nosniff" h).
  set (h2 := set "X-Frame-Options" "DENY" h1).
  set (h3 := set "X-XSS-Protection" "1; mode=block" h2).
  set (h4 := set "Strict-Transport-Security" "max-age=31536000; includeSubDomains" h3).
  assert (set "X-Content-Type-Options" "nosniff" h4 = h4) as ->.
  { do 3 (apply set_fixed_other; [reflexivity |]). apply set_twice. }
  assert (set "X-Frame-Options" "DENY" h4 = h4) as ->.
  { do 2 (apply set_fixed_other; [reflexivity |]). apply set_twice. }
  assert (set "X-XSS-Protection" "1; mode=block" h4 = h4) as ->.
  { apply set_fixed_other; [reflexivity |]. apply set_twice. }
  apply set_twice.
Qed.

Lemma add_security_headers_other (response : Response) key :
  same_key "X-Content-Type-Options" key = false ->
  same_key "X-Frame-Options" key = false ->
  same_key "X-XSS-Protection" key = false ->
  same_key "Strict-Transport-Security" key = false ->
  getlist key (headers (add_security_headers response))
  = getlist key (headers response).
Proof.
  intros H1 H2 H3 H4. unfold add_security_headers. simpl.
  by rewrite !getlist_set_other.
Qed.

Lemma getlist_add_same key value (h : Headers) :
  getlist key (add key value h) = getlist key h ++ [value].
Proof.
  unfold getlist, add. rewrite List.filter_app, map_app. simpl.
  by rewrite same_key_refl.
Qed.

(** On a response without the header, the cross-origin hook writes it
    once: the origin of the request, or the wildcard. *)
Lemma process_response_allow_origin req (rv : Response) :
  getlist "Access-Control-Allow-Origin" (headers rv) = [] ->
  getlist "Access-Control-Allow-Origin" (headers (process_response req rv))
  = [match origin req with
     | Some (String c rest) => String c rest
     | _ => "*"
     end].
Proof.
  intros Hnone. unfold process_response.
  assert (getlist "Access-Control-Allow-Origin"
            (headers (add_security_headers rv)) = []) as Hr
    by (by rewrite add_security_headers_other).
  revert Hr. generalize (add_security_headers rv). intros r Hr.
  unfold cors_after_request. rewrite Hr.
  destruct (origin req) as [[|c rest]|]; cbn [headers with_headers].
  - by rewrite getlist_add_same, Hr.
  - rewrite getlist_add_other by reflexivity. by rewrite getlist_add_same, Hr.
  - by rewrite getlist_add_same, Hr.
Qed.

Lemma view_statuses p req ep :
  all_returns
    (fun rv => status rv = 200 \/ status rv = 204
               \/ status rv = 400 \/ status rv = 500)
    (view p req ep).
Proof.
  destruct ep; simpl; auto.
  apply (all_returns_impl
           (fun rv => status rv = 200 \/ status rv = 400 \/ status rv = 500));
    [intros rv H; tauto | apply get_transcript_statuses].
Qed.

Lemma view_without_allow_origin p req ep :
  all_returns
    (fun rv => getlist "Access-Control-Allow-Origin" (headers rv) = [])
    (view p req ep).
Proof.
  destruct ep; simpl; try reflexivity.
  refine (all_returns_impl _ _ _ _ (get_transcript_shape req)).
  intros rv [-> _]. reflexivity.
Qed.

End DispatchFacts.

(* ===================================================================== *)
(** * Further properties of the program *)
(* ===================================================================== *)

Import ParsingFacts HeaderFacts ViewFacts LimiterFacts DispatchFacts.

(** ** The resolver *)

(** X1.  The resolver returns nothing else than the two rules give.  When
    it returns [id] for a URL that parses, then with a network location
    that contains "youtube.com" (the user information, the host and the
    port together, which is what the program tests) [id] is the value of
    the first pair named [v] that [parse_qsl] reads from the query, and
    with any other network location [id] is the text after the last [/]
    of the path [urlparse] gives, without a [/] of its own. *)
Theorem X1_resolver_returns_only_what_the_rules_give (url : string)
    (p : ParseResult) (id : string) :
  urlparse url = Ok p ->
  resolve url = Ok id ->
  if contains "youtube.com" (netloc p)
  then exists before after,
         parse_qsl (query p) = before ++ ("v", id) :: after
         /\ "v" ∉ map fst before
  else has_char "/" id = false
       /\ (path p = id \/ exists pre, path p = pre +:+ "/" +:+ id).
Proof.
  intros Hp Hid. destruct (contains "youtube.com" (netloc p)) eqn:Hhost.
  - rewrite (resolve_youtube url p Hp Hhost) in Hid.
    destruct (values_named "v" (parse_qsl (query p))) as [|[|c v] rest] eqn:E;
      try discriminate.
    inversion Hid; subst. by apply (values_named_first "v" _ _ rest).
  - rewrite (resolve_other url p Hp Hhost) in Hid.
    destruct (last (split "/" (path p))) as [[|c v]|] eqn:E; try discriminate.
    inversion Hid; subst. by apply last_split.
Qed.

Lemma X1_witness :
  exists before after,
    parse_qsl "t=42s&v=dQw4w9WgXcQ&v=other"
    = before ++ ("v", "dQw4w9WgXcQ") :: after
    /\ "v" ∉ map fst before.
Proof.
  apply (X1_resolver_returns_only_what_the_rules_give
           "https://www.youtube.com/watch?t=42s&v=dQw4w9WgXcQ&v=other"
           (mk_ParseResult "https" "www.youtube.com" "/watch" ""
              "t=42s&v=dQw4w9WgXcQ&v=other" "")
           "dQw4w9WgXcQ"); vm_compute; reflexivity.
Defined.

(** X2.  The only exceptions the resolver raises are: a [ValueError] for a
    [str] (its own or the parser's, never an [IndexError] of the two
    subscripts), an [AttributeError] for a true value that is not a
    [str], and a [TypeError] for a false one. *)
Theorem X2_resolver_exception_classes (url : pyval) (e : exn) :
  resolve_value url = Raise e ->
  exn_class e
  = match url with
    | PStr _ => ValueError
    | _ => if truthy url then AttributeError else TypeError
    end.
Proof.
  destruct url as [|b|z|f|s|l|d]; simpl;
    try (by apply resolve_raises_ValueError);
    repeat case_match; intros ?; by simplify_eq.
Qed.

Lemma X2_witness :
  exn_class
    (raise_ ValueError
       "netloc 'a／b' contains invalid characters under NFKC normalization")
  = ValueError.
Proof.
  apply (X2_resolver_exception_classes (PStr "http://a／b/c")).
  vm_compute. reflexivity.
Defined.

(** X3.  A fragment does not change what the resolver does: for a URL
    without [#], appending [#] and any text gives the same identifier or
    the same failure. *)
Theorem X3_fragment_is_ignored (url frag : string) :
  has_char "#" url = false ->
  resolve (url +:+ "#" +:+ frag) = resolve url.
Proof. intros Hurl. by apply resolve_fragment. Qed.

Lemma X3_witness :
  resolve ("https://youtu.be/dQw4w9WgXcQ" +:+ "#" +:+ "t=42")
  = resolve "https://youtu.be/dQw4w9WgXcQ".
Proof. apply X3_fragment_is_ignored. reflexivity. Defined.

(** X4.  Blanks do not change what the resolver does: leading characters
    up to U+0020 are stripped, and a tab, carriage return or line feed
    anywhere in the URL is removed before the URL is read. *)
Theorem X4_blanks_are_ignored :
  (forall ws url : string,
     forall_chars is_c0_control_or_space ws = true ->
     resolve (ws +:+ url) = resolve url)
  /\ (forall (a : string) (c : ascii) (b : string),
        is_unsafe_url_byte c = true ->
        resolve (a +:+ String c b) = resolve (a +:+ b)).
Proof.
  split.
  - intros ws url Hws. apply resolve_cleaned. by rewrite lstrip_all.
  - intros a c b Hc. apply resolve_cleaned. by apply cleaned_without_unsafe.
Qed.

Lemma X4_witness :
  resolve ("  " +:+ "https://youtu.be/dQw4w9WgXcQ")
  = resolve "https://youtu.be/dQw4w9WgXcQ"
  /\ resolve ("https://youtu.be/dQw4" +:+ String "010" "w9WgXcQ")
     = resolve ("https://youtu.be/dQw4" +:+ "w9WgXcQ").
Proof.
  split.
  - apply (proj1 X4_blanks_are_ignored). reflexivity.
  - apply (proj2 X4_blanks_are_ignored). reflexivity.
Defined.

(** ** [get_video_transcript] *)

(** X5.  When the resolver finds an identifier, [get_video_transcript]
    calls the library exactly once, with that identifier.  A transcript
    is returned as the library gave it, without a log entry; an
    exception of the library is logged once and raised again
    unchanged. *)
Theorem X5_one_call_of_the_library (library : string -> answer)
    (url : pyval) (id : string) :
  resolve_value url = Ok id ->
  run library (get_video_transcript url)
  = match library id with
    | Transcript transcript => ([Fetched id], Ok transcript)
    | Failure e =>
        ([Fetched id; Logged ("Error fetching transcript: " +:+ exn_str e)],
         Raise e)
    end.
Proof. apply run_get_video_transcript_resolved. Qed.

Lemma X5_witness :
  run (fun _ => Failure (raise_ (LibraryError "TranscriptsDisabled")
                           "Subtitles are disabled for this video"))
    (get_video_transcript (PStr "https://www.youtube.com/watch?v=dQw4w9WgXcQ"))
  = ([Fetched "dQw4w9WgXcQ";
      Logged "Error fetching transcript: Subtitles are disabled for this video"],
     Raise (raise_ (LibraryError "TranscriptsDisabled")
              "Subtitles are disabled for this video")).
Proof.
  apply (X5_one_call_of_the_library
           (fun _ => Failure (raise_ (LibraryError "TranscriptsDisabled")
                                "Subtitles are disabled for this video"))
           (PStr "https://www.youtube.com/watch?v=dQw4w9WgXcQ") "dQw4w9WgXcQ").
  vm_compute. reflexivity.
Defined.

(** ** The transcript view *)

(** X6.  For a JSON object body whose [url] the resolver accepts, the view
    calls the library once with the identifier.  The library's transcript
    is answered with status 200 under the key [transcript], exactly as
    the library gave it and without a log entry; an exception of the
    library is logged twice and answered with status 500 and its message
    under [error]. *)
Theorem X6_transcript_is_passed_through (library : string -> answer)
    (req : request) (d : list (string * pyval)) (url : pyval) (id : string) :
  json req = Parsed (PDict d) ->
  dict_get d "url" = Some url ->
  resolve_value url = Ok id ->
  run library (get_transcript req)
  = match library id with
    | Transcript transcript =>
        ([Fetched id],
         Ok {| status := 200;
               headers := [("Content-Type", "application/json")];
               data := Json (PDict [("transcript", transcript)]) |})
    | Failure e =>
        ([Fetched id;
          Logged ("Error fetching transcript: " +:+ exn_str e);
          Logged ("Error in transcript endpoint: " +:+ exn_str e)],
         Ok {| status := 500;
               headers := [("Content-Type", "application/json")];
               data := Json (PDict [("error", PStr (exn_str e))]) |})
    end.
Proof. apply run_get_transcript_resolved. Qed.

Lemma X6_witness :
  let transcript :=
    PList [PDict [("text", PStr "Never gonna give you up");
                  ("start", PInt 18); ("duration", PInt 3)]] in
  run (fun _ => Transcript transcript)
    (get_transcript
       (mk_request POST "/api/transcript" (Some "203.0.113.7") None
          (Parsed (PDict [("lang", PStr "en");
                          ("url", PStr "https://youtu.be/dQw4w9WgXcQ")]))))
  = ([Fetched "dQw4w9WgXcQ"],
     Ok {| status := 200;
           headers := [("Content-Type", "application/json")];
           data := Json (PDict [("transcript", transcript)]) |}).
Proof.
  intros transcript.
  apply (X6_transcript_is_passed_through (fun _ => Transcript transcript)
           (mk_request POST "/api/transcript" (Some "203.0.113.7") None
              (Parsed (PDict [("lang", PStr "en");
                              ("url", PStr "https://youtu.be/dQw4w9WgXcQ")])))
           [("lang", PStr "en"); ("url", PStr "https://youtu.be/dQw4w9WgXcQ")]
           (PStr "https://youtu.be/dQw4w9WgXcQ") "dQw4w9WgXcQ").
  - reflexivity.
  - reflexivity.
  - vm_compute. reflexivity.
Defined.

(** X7.  The transcript library is only ever called by the transcript view
    with the identifier the resolver extracted from the value stored
    under [url] in a JSON object body, and that identifier is never
    empty. *)
Theorem X7_library_called_with_resolved_identifier
    (library : string -> answer) (req : request) (id : string) :
  Fetched id ∈ fst (run library (get_transcript req)) ->
  id <> ""
  /\ exists (d : list (string * pyval)) (url : pyval),
       json req = Parsed (PDict d)
       /\ dict_get d "url" = Some url
       /\ resolve_value url = Ok id.
Proof.
  intros Hin.
  destruct (get_transcript_fetches_resolved library req id Hin)
    as (d & url & Hjson & Hurl & Hid).
  split; [by apply (resolve_value_Ok_nonempty url) | by exists d, url].
Qed.

Lemma X7_witness :
  "dQw4w9WgXcQ" <> ""
  /\ exists (d : list (string * pyval)) (url : pyval),
       Parsed (PDict [("url", PStr "https://youtu.be/dQw4w9WgXcQ")])
       = Parsed (PDict d)
       /\ dict_get d "url" = Some url
       /\ resolve_value url = Ok "dQw4w9WgXcQ".
Proof.
  apply (X7_library_called_with_resolved_identifier
           (fun _ => Transcript (PList []))
           (mk_request POST "/api/transcript" (Some "203.0.113.7") None
              (Parsed (PDict [("url", PStr "https://youtu.be/dQw4w9WgXcQ")])))
           "dQw4w9WgXcQ").
  vm_compute. left.
Defined.

(** X8.  The view lets no exception escape, and each of its answers is a
    JSON object with one key: [transcript] with status 200, or [error]
    holding a text with status 400 or 500. *)
Theorem X8_answers_of_the_transcript_view (req : request) :
  never_throws (get_transcript req)
  /\ forall rv : Response,
       returns (get_transcript req) rv ->
       headers rv = [("Content-Type", "application/json")]
       /\ ((status rv = 200
            /\ exists transcript,
                 data rv = Json (PDict [("transcript", transcript)]))
           \/ ((status rv = 400 \/ status rv = 500)
               /\ exists msg, data rv = Json (PDict [("error", PStr msg)]))).
Proof.
  split; [apply get_transcript_never_throws |].
  intros rv Hrv.
  exact (all_returns_returns _ _ rv (get_transcript_shape req) Hrv).
Qed.

Lemma X8_witness :
  let rv := with_status 400 (jsonify (PDict [("error", PStr "URL is required")])) in
  headers rv = [("Content-Type", "application/json")]
  /\ ((status rv = 200
       /\ exists transcript, data rv = Json (PDict [("transcript", transcript)]))
      \/ ((status rv = 400 \/ status rv = 500)
          /\ exists msg, data rv = Json (PDict [("error", PStr msg)]))).
Proof.
  apply (proj2 (X8_answers_of_the_transcript_view
                  (mk_request POST "/api/transcript" (Some "203.0.113.7") None
                     (Parsed (PDict []))))).
  vm_compute. apply returns_ret.
Defined.

(** X9.  The view answers 400 exactly when the body was read and is a
    false value, or is a [str], a [list] or a [dict] in which the
    membership test does not find ["url"]. *)
Theorem X9_url_required_exactly (req : request) :
  (exists rv, returns (get_transcript req) rv /\ status rv = 400)
  <-> (exists data,
         json req = Parsed data
         /\ (truthy data = false \/ contains_str "url" data = Ok false)).
Proof.
  split.
  - intros (rv & Hrv & Hstatus).
    destruct (json req) as [data|e] eqn:Hjson.
    + exists data. split; [reflexivity |].
      destruct (truthy data) eqn:Htruthy; [| by left].
      destruct (contains_str "url" data) as [[|]| |] eqn:Hin; [| by right | |];
        exfalso;
        apply (all_returns_returns _ _ rv
                 (get_transcript_not_400 req data Hjson Htruthy
                    ltac:(rewrite Hin; discriminate)) Hrv Hstatus).
    + rewrite (get_transcript_unreadable_body req e Hjson) in Hrv.
      inversion Hrv as [| ? ? ? Hrv' |]; subst. inversion Hrv'; subst.
      discriminate.
  - intros (data & Hjson & H).
    rewrite (get_transcript_url_required req data Hjson H).
    eexists. split; [apply returns_ret | reflexivity].
Qed.

Lemma X9_witness :
  exists rv,
    returns
      (get_transcript
         (mk_request POST "/api/transcript" (Some "203.0.113.7") None
            (Parsed (PList [PStr "https://youtu.be/dQw4w9WgXcQ"]))))
      rv
    /\ status rv = 400.
Proof.
  apply (proj2 (X9_url_required_exactly
                  (mk_request POST "/api/transcript" (Some "203.0.113.7") None
                     (Parsed (PList [PStr "https://youtu.be/dQw4w9WgXcQ"]))))).
  exists (PList [PStr "https://youtu.be/dQw4w9WgXcQ"]).
  split; [reflexivity | right; reflexivity].
Defined.

(** X10.  A request whose body [request.get_json()] does not read, for
    its content type or for its syntax, is answered 500 with the text of
    werkzeug's exception under [error], not 400; the exception is logged
    and the transcript library is not called. *)
Theorem X10_unreadable_body_is_answered_500 (library : string -> answer)
    (req : request) (e : exn) :
  json req = Unreadable e ->
  run library (get_transcript req)
  = ([Logged ("Error in transcript endpoint: " +:+ exn_str e)],
     Ok {| status := 500;
           headers := [("Content-Type", "application/json")];
           data := Json (PDict [("error", PStr (exn_str e))]) |}).
Proof.
  intros Hjson. by rewrite (get_transcript_unreadable_body req e Hjson).
Qed.

Lemma X10_witness :
  let e :=
    mk_exn UnsupportedMediaType
      ("415 Unsupported Media Type: Did not attempt to load JSON data "
       +:+ "because the request Content-Type was not 'application/json'.")
      (Some 415) in
  run (fun _ => Transcript (PList []))
    (get_transcript
       (mk_request POST "/api/transcript" (Some "203.0.113.7") None (Unreadable e)))
  = ([Logged ("Error in transcript endpoint: " +:+ exn_str e)],
     Ok {| status := 500;
           headers := [("Content-Type", "application/json")];
           data := Json (PDict [("error", PStr (exn_str e))]) |}).
Proof.
  intros e.
  apply (X10_unreadable_body_is_answered_500 (fun _ => Transcript (PList []))
           (mk_request POST "/api/transcript" (Some "203.0.113.7") None
              (Unreadable e))
           e).
  reflexivity.
Defined.

(** ** Routing, the error handler and the views without input *)

(** X11.  A request to a registered path with a method the route does not
    allow, such as [GET /api/transcript], is answered with status 500,
    not 405: the error handler takes werkzeug's exception, logs it and
    puts its text under [error].  The request is not counted by the
    limiter. *)
Theorem X11_method_not_allowed_is_answered_500 (p : process) (st : storage)
    (req : request) (ep : endpoint) :
  url_map (req_path req) = Some ep ->
  allows ep (method req) = false ->
  wsgi_app p st req
  = (LoggerError
       ("An error occurred: 405 Method Not Allowed: "
        +:+ "The method is not allowed for the requested URL.")
       (Ret (process_response req
               {| status := 500;
                  headers := [("Content-Type", "application/json")];
                  data := Json
                            (PDict
                               [("error",
                                 PStr ("405 Method Not Allowed: "
                                       +:+ "The method is not allowed for the "
                                       +:+ "requested URL."));
                                ("status", PStr "error")]) |})),
     st).
Proof.
  intros Hpath Hmethod.
  unfold wsgi_app, _check_request_limit, full_dispatch_request, dispatch_request,
    match_request.
  rewrite Hpath, Hmethod.
  cbn [lift mbind io_bind bind try_except].
  rewrite handle_user_exception_eq. reflexivity.
Qed.

Lemma X11_witness :
  let req :=
    mk_request GET "/api/transcript" (Some "203.0.113.7") None (Parsed PNone) in
  wsgi_app (mk_process 0 None) ∅ req
  = (LoggerError
       ("An error occurred: 405 Method Not Allowed: "
        +:+ "The method is not allowed for the requested URL.")
       (Ret (process_response req
               {| status := 500;
                  headers := [("Content-Type", "application/json")];
                  data := Json
                            (PDict
                               [("error",
                                 PStr ("405 Method Not Allowed: "
                                       +:+ "The method is not allowed for the "
                                       +:+ "requested URL."));
                                ("status", PStr "error")]) |})),
     ∅).
Proof.
  intros req.
  apply (X11_method_not_allowed_is_answered_500 (mk_process 0 None) ∅ req
           EpTranscript); reflexivity.
Defined.

(** X12.  Every response to a request for one of the four registered paths
    has status 200, 204, 400 or 500, whatever the method, the body and
    the counters of the limiter: the statuses 405 and 429 do not
    occur. *)
Theorem X12_statuses_of_the_routes (p : process) (st : storage) (req : request)
    (ep : endpoint) (response : Response) :
  url_map (req_path req) = Some ep ->
  returns (fst (wsgi_app p st req)) response ->
  status response = 200 \/ status response = 204
  \/ status response = 400 \/ status response = 500.
Proof.
  intros _ Hreturns.
  destruct (all_returns_returns _ _ response
              (wsgi_app_from_views
                 (fun rv => status rv = 200 \/ status rv = 204
                            \/ status rv = 400 \/ status rv = 500)
                 p st req (view_statuses p req)
                 (fun ep => or_introl eq_refl)
                 (fun e => or_intror (or_intror (or_intror eq_refl))))
              Hreturns) as (rv & Hrv & ->).
  by rewrite process_response_status.
Qed.

Lemma X12_witness :
  let response :=
    process_response
      (mk_request GET "/favicon.ico" None None (Parsed PNone))
      (with_status 204 (text_response "")) in
  status response = 200 \/ status response = 204
  \/ status response = 400 \/ status response = 500.
Proof.
  apply (X12_statuses_of_the_routes (mk_process 0 None) ∅
           (mk_request GET "/favicon.ico" None None (Parsed PNone)) EpFavicon).
  - reflexivity.
  - vm_compute. apply returns_ret.
Defined.

(** X13.  A [GET /health] the limiter admits is answered 200 with the
    four fields of the health document, whatever the body and the origin
    of the request: the timestamp is the clock of the process and the
    environment is [ENVIRONMENT], or "development" when the variable is
    not set.  Nothing is logged and the transcript library is not
    called. *)
Theorem X13_health_document (p : process) (st : storage) (req : request) :
  method req = GET ->
  req_path req = "/health" ->
  fst (_check_request_limit p st req) = Ok tt ->
  fst (wsgi_app p st req)
  = Ret (process_response req
           {| status := 200;
              headers := [("Content-Type", "application/json")];
              data := Json
                        (PDict
                           [("status", PStr "healthy");
                            ("timestamp", PFloat (float_of_Z (time_time p)));
                            ("environment",
                             PStr match ENVIRONMENT p with
                                  | Some environment => environment
                                  | None => "development"
                                  end);
                            ("service", PStr "youtube-transcript-api")]) |}).
Proof.
  intros Hmethod Hpath Hchecked. rewrite wsgi_app_response, Hchecked.
  unfold full_dispatch_request, dispatch_request, match_request.
  rewrite Hpath, Hmethod. reflexivity.
Qed.

Lemma X13_witness :
  let req :=
    mk_request GET "/health" (Some "203.0.113.7") None
      (Unreadable (raise_ BadRequest "400 Bad Request: Failed to decode JSON object")) in
  fst (wsgi_app (mk_process 1700000000 (Some "production")) ∅ req)
  = Ret (process_response req
           {| status := 200;
              headers := [("Content-Type", "application/json")];
              data := Json
                        (PDict
                           [("status", PStr "healthy");
                            ("timestamp", PFloat (float_of_Z 1700000000));
                            ("environment", PStr "production");
                            ("service", PStr "youtube-transcript-api")]) |}).
Proof.
  intros req.
  apply (X13_health_document (mk_process 1700000000 (Some "production")) ∅ req);
    reflexivity.
Defined.

(** X14.  A [GET /favicon.ico] the limiter admits is answered 204 with an
    empty body, and nothing is logged. *)
Theorem X14_favicon_is_empty (p : process) (st : storage) (req : request) :
  method req = GET ->
  req_path req = "/favicon.ico" ->
  fst (_check_request_limit p st req) = Ok tt ->
  fst (wsgi_app p st req)
  = Ret (process_response req
           {| status := 204;
              headers := [("Content-Type", "text/html; charset=utf-8")];
              data := Text "" |}).
Proof.
  intros Hmethod Hpath Hchecked. rewrite wsgi_app_response, Hchecked.
  unfold full_dispatch_request, dispatch_request, match_request.
  by rewrite Hpath, Hmethod.
Qed.

Lemma X14_witness :
  let req := mk_request GET "/favicon.ico" (Some "203.0.113.7") None (Parsed PNone) in
  fst (wsgi_app (mk_process 0 None) ∅ req)
  = Ret (process_response req
           {| status := 204;
              headers := [("Content-Type", "text/html; charset=utf-8")];
              data := Text "" |}).
Proof.
  intros req.
  apply (X14_favicon_is_empty (mk_process 0 None) ∅ req); reflexivity.
Defined.

(** ** The limiter *)

(** X15.  The first ten [GET /] of a window are served: a client that has
    no open window on the root view and sends its requests less than
    sixty seconds after the first one is answered 200 with the document
    of the root view on each of the first ten. *)
Theorem X15_first_ten_requests_are_served (st : storage) (address : string)
    (first : process * request) (later : list (process * request))
    (i : nat) (p : process) (req : request) :
  match st !! key_for address "home" home_limit with
  | Some (_, expires) => (expires <= time_time (fst first))%Z
  | None => True
  end ->
  Forall (fun arrival =>
            method (snd arrival) = GET /\ req_path (snd arrival) = "/"
            /\ get_remote_address (snd arrival) = address
            /\ (time_time (fst arrival) < time_time (fst first) + 60)%Z)
    (first :: later) ->
  (first :: later) !! i = Some (p, req) ->
  (i < 10)%nat ->
  serve st (first :: later) !! i
  = Some (Ret (process_response req
                 {| status := 200;
                    headers := [("Content-Type", "application/json")];
                    data := Json
                              (PDict
                                 [("status", PStr "Server is running");
                                  ("endpoints",
                                   PDict [("transcript", PStr "/api/transcript");
                                          ("health", PStr "/health")]);
                                  ("version", PStr "1.0.0")]) |})).
Proof.
  intros Hfresh Hall Hi Hlt. destruct first as [p0 req0].
  apply Forall_cons in Hall as [(Hmethod & Hpath & Haddr & _) Hall].
  simpl in Hmethod, Hpath, Haddr, Hfresh, Hall. subst address.
  cbn [serve]. rewrite (wsgi_app_home_fresh p0 st req0 Hmethod Hpath Hfresh).
  destruct i as [|i]; simpl in Hi.
  - by inversion Hi.
  - simpl.
    rewrite (serve_home_counted _ _ later _ 1%nat (lookup_insert_eq _ _ _) Hall
               i p req Hi).
    assert ((S (1 + i) <=? 10)%nat = true) as -> by (apply Nat.leb_le; lia).
    reflexivity.
Qed.

Lemma X15_witness :
  let req := mk_request GET "/" (Some "203.0.113.7") None (Parsed PNone) in
  let arrivals :=
    map (fun t => (mk_process (Z.of_nat t) None, req)) (seq 0 11) in
  serve ∅ arrivals !! 9%nat
  = Some (Ret (process_response req
                 {| status := 200;
                    headers := [("Content-Type", "application/json")];
                    data := Json
                              (PDict
                                 [("status", PStr "Server is running");
                                  ("endpoints",
                                   PDict [("transcript", PStr "/api/transcript");
                                          ("health", PStr "/health")]);
                                  ("version", PStr "1.0.0")]) |})).
Proof.
  intros req arrivals.
  apply (X15_first_ten_requests_are_served ∅ "203.0.113.7"
           (mk_process 0 None, req)
           (map (fun t => (mk_process (Z.of_nat t) None, req)) (seq 1 10))
           9%nat (mk_process 9 None) req).
  - vm_compute. exact I.
  - simpl. repeat constructor.
  - reflexivity.
  - lia.
Defined.

(** X16.  A client that has no open window on the transcript route sends
    a hundred and one requests to it, the last hundred less than an hour
    after the first.  Whatever the bodies were and whatever became of
    the first hundred, the last request is refused: the view is not run,
    so nothing is read from the body and the library is not called, and
    the error handler answers 500 with the text of the limit. *)
Theorem X16_transcript_request_101_is_refused (st : storage) (address : string)
    (first : process * request) (later : list (process * request))
    (p : process) (req : request) :
  match st !! key_for address "get_transcript" transcript_limit with
  | Some (_, expires) => (expires <= time_time (fst first))%Z
  | None => True
  end ->
  Forall (fun arrival =>
            method (snd arrival) = POST
            /\ req_path (snd arrival) = "/api/transcript"
            /\ get_remote_address (snd arrival) = address
            /\ (time_time (fst arrival) < time_time (fst first) + 3600)%Z)
    (first :: later) ->
  later !! 99%nat = Some (p, req) ->
  serve st (first :: later) !! 100%nat
  = Some (LoggerError "An error occurred: 429 Too Many Requests: 100 per 1 hour"
            (Ret (process_response req
                    {| status := 500;
                       headers := [("Content-Type", "application/json")];
                       data := Json
                                 (PDict
                                    [("error",
                                      PStr "429 Too Many Requests: 100 per 1 hour");
                                     ("status", PStr "error")]) |}))).
Proof.
  intros Hfresh Hall Hlast. destruct first as [p0 req0].
  apply Forall_cons in Hall as [(Hmethod & Hpath & Haddr & _) Hall].
  simpl in Hmethod, Hpath, Haddr, Hfresh, Hall. subst address.
  assert (forall r, method r = POST -> req_path r = "/api/transcript" ->
                    match_request r = Ok EpTranscript) as Hmatch
    by (intros r Hm Hp; unfold match_request; by rewrite Hp, Hm).
  cbn [serve].
  destruct (wsgi_app p0 st req0) as [response st'] eqn:Happ.
  assert (st' = <[key_for (get_remote_address req0) "get_transcript" transcript_limit
                  := (1%nat, (time_time p0 + 3600)%Z)]> st) as ->.
  { change st' with (snd (response, st')). rewrite <- Happ, wsgi_app_state.
    by rewrite (check_request_limit_fresh EpTranscript transcript_limit eq_refl
                  p0 st req0 (Hmatch _ Hmethod Hpath) Hfresh). }
  simpl.
  refine (serve_over_the_limit EpTranscript transcript_limit eq_refl
            (get_remote_address req0) (time_time p0 + 3600)%Z later _ 1%nat
            (lookup_insert_eq _ _ _) _ 99%nat p req Hlast _);
    [| simpl; lia].
  eapply Forall_impl; [exact Hall |].
  intros [p' req'] (Hm & Hp & Ha & Ht). simpl in *. by rewrite (Hmatch _ Hm Hp).
Qed.

Lemma X16_witness :
  let req :=
    mk_request POST "/api/transcript" (Some "203.0.113.7") None
      (Parsed (PDict [("url", PStr "https://youtu.be/dQw4w9WgXcQ")])) in
  let arrivals :=
    map (fun t => (mk_process (Z.of_nat t) None, req)) (seq 0 101) in
  serve ∅ arrivals !! 100%nat
  = Some (LoggerError "An error occurred: 429 Too Many Requests: 100 per 1 hour"
            (Ret (process_response req
                    {| status := 500;
                       headers := [("Content-Type", "application/json")];
                       data := Json
                                 (PDict
                                    [("error",
                                      PStr "429 Too Many Requests: 100 per 1 hour");
                                     ("status", PStr "error")]) |}))).
Proof.
  intros req arrivals.
  apply (X16_transcript_request_101_is_refused ∅ "203.0.113.7"
           (mk_process 0 None, req)
           (map (fun t => (mk_process (Z.of_nat t) None, req)) (seq 1 100))
           (mk_process 100 None) req).
  - vm_compute. exact I.
  - simpl. repeat constructor.
  - reflexivity.
Defined.

(** X17.  The health view has the default limits.  A client that has no
    open window on it sends fifty-one [GET /health], the last fifty less
    than an hour after the first: the last one is refused and answered
    500 with the text of the hourly limit, so a probe that polls more
    often than fifty times an hour is told the server has failed. *)
Theorem X17_health_request_51_is_refused (st : storage) (address : string)
    (first : process * request) (later : list (process * request))
    (p : process) (req : request) :
  Forall (fun item =>
            match st !! key_for address "health" item with
            | Some (_, expires) => (expires <= time_time (fst first))%Z
            | None => True
            end) default_limits ->
  Forall (fun arrival =>
            method (snd arrival) = GET
            /\ req_path (snd arrival) = "/health"
            /\ get_remote_address (snd arrival) = address
            /\ (time_time (fst arrival) < time_time (fst first) + 3600)%Z)
    (first :: later) ->
  later !! 49%nat = Some (p, req) ->
  serve st (first :: later) !! 50%nat
  = Some (LoggerError "An error occurred: 429 Too Many Requests: 50 per 1 hour"
            (Ret (process_response req
                    {| status := 500;
                       headers := [("Content-Type", "application/json")];
                       data := Json
                                 (PDict
                                    [("error",
                                      PStr "429 Too Many Requests: 50 per 1 hour");
                                     ("status", PStr "error")]) |}))).
Proof.
  intros Hfresh Hall Hlast. destruct first as [p0 req0].
  apply Forall_cons in Hfresh as [Hhour Hfresh].
  apply Forall_cons in Hfresh as [Hday _].
  apply Forall_cons in Hall as [(Hmethod & Hpath & Haddr & _) Hall].
  simpl in Hmethod, Hpath, Haddr, Hhour, Hday, Hall. subst address.
  assert (forall r, method r = GET -> req_path r = "/health" ->
                    match_request r = Ok EpHealth) as Hmatch
    by (intros r Hm Hp; unfold match_request; by rewrite Hp, Hm).
  cbn [serve].
  destruct (wsgi_app p0 st req0) as [response st'] eqn:Happ.
  assert (st' = snd (_check_request_limit p0 st req0)) as ->.
  { change st' with (snd (response, st')). by rewrite <- Happ, wsgi_app_state. }
  rewrite (check_default_limits_fresh EpHealth eq_refl p0 st req0
             (Hmatch _ Hmethod Hpath) Hhour Hday).
  simpl.
  refine (serve_over_the_default_limit EpHealth eq_refl
            (get_remote_address req0) (time_time p0 + 3600)%Z
            (time_time p0 + 86400)%Z later _ 1%nat 1%nat _ _ _ _
            49%nat p req Hlast _); [| | lia | | simpl; lia].
  - etrans; [by apply lookup_insert_ne | apply lookup_insert_eq].
  - apply lookup_insert_eq.
  - eapply Forall_impl; [exact Hall |].
    intros [p' req'] (Hm & Hp & Ha & Ht). simpl in *.
    rewrite (Hmatch _ Hm Hp). repeat split; [done | done | lia].
Qed.

Lemma X17_witness :
  let req := mk_request GET "/health" (Some "203.0.113.7") None (Parsed PNone) in
  let arrivals :=
    map (fun t => (mk_process (60 * Z.of_nat t) None, req)) (seq 0 51) in
  serve ∅ arrivals !! 50%nat
  = Some (LoggerError "An error occurred: 429 Too Many Requests: 50 per 1 hour"
            (Ret (process_response req
                    {| status := 500;
                       headers := [("Content-Type", "application/json")];
                       data := Json
                                 (PDict
                                    [("error",
                                      PStr "429 Too Many Requests: 50 per 1 hour");
                                     ("status", PStr "error")]) |}))).
Proof.
  intros req arrivals.
  apply (X17_health_request_51_is_refused ∅ "203.0.113.7"
           (mk_process 0 None, req)
           (map (fun t => (mk_process (60 * Z.of_nat t) None, req)) (seq 1 50))
           (mk_process 3000 None) req).
  - repeat constructor.
  - simpl. repeat constructor.
  - reflexivity.
Defined.

(** X18.  The window of the root view is fixed: once the sixty seconds
    that began with the first counted request are over, the next [GET /]
    is served whatever the counter had reached, refusals included, and
    opens a new window with the counter at one. *)
Theorem X18_a_new_window_after_the_old_one (p : process) (st : storage)
    (req : request) (n : nat) (expires : Z) :
  method req = GET -> req_path req = "/" ->
  st !! key_for (get_remote_address req) "home" home_limit = Some (n, expires) ->
  (expires <= time_time p)%Z ->
  wsgi_app p st req
  = (rv ← home; Ret (process_response req rv),
     <[key_for (get_remote_address req) "home" home_limit
       := (1%nat, (time_time p + 60)%Z)]> st).
Proof.
  intros Hmethod Hpath Hcounter Hover.
  apply (wsgi_app_home_fresh p st req Hmethod Hpath). by rewrite Hcounter.
Qed.

Lemma X18_witness :
  let req := mk_request GET "/" (Some "203.0.113.7") None (Parsed PNone) in
  let st : storage := {[ key_for "203.0.113.7" "home" home_limit := (25%nat, 60%Z) ]} in
  wsgi_app (mk_process 60 None) st req
  = (rv ← home; Ret (process_response req rv),
     <[key_for "203.0.113.7" "home" home_limit := (1%nat, (60 + 60)%Z)]> st).
Proof.
  intros req st.
  apply (X18_a_new_window_after_the_old_one (mk_process 60 None) st req 25 60%Z).
  - reflexivity.
  - reflexivity.
  - apply lookup_singleton_eq.
  - simpl. lia.
Defined.

(** X19.  A request changes no counter of another client and no counter
    of another view: the only counters it can touch are those kept for
    its own address and the view its path is routed to. *)
Theorem X19_counters_of_others_are_untouched (p : process) (st : storage)
    (req : request) (address scope : string) (lim : nat * Z) :
  address <> get_remote_address req
  \/ (forall ep, url_map (req_path req) = Some ep -> scope <> endpoint_name ep) ->
  snd (wsgi_app p st req) !! (address, scope, lim) = st !! (address, scope, lim).
Proof.
  intros Hother. rewrite wsgi_app_state. unfold _check_request_limit.
  destruct (match_request req) as [ep| |] eqn:Hmatch; [| reflexivity..].
  apply evaluate_limits_other. simpl. intros [= -> ->].
  destruct Hother as [H | H]; [done |].
  by apply (H ep (endpoint_name_of_path req ep Hmatch)).
Qed.

Lemma X19_witness :
  let st : storage :=
    {[ key_for "198.51.100.4" "home" home_limit := (10%nat, 60%Z) ]} in
  snd (wsgi_app (mk_process 30 None) st
         (mk_request GET "/" (Some "203.0.113.7") None (Parsed PNone)))
    !! key_for "198.51.100.4" "home" home_limit
  = st !! key_for "198.51.100.4" "home" home_limit.
Proof.
  intros st.
  apply (X19_counters_of_others_are_untouched (mk_process 30 None) st
           (mk_request GET "/" (Some "203.0.113.7") None (Parsed PNone))
           "198.51.100.4" "home" (10%nat, 60%Z)).
  left. discriminate.
Defined.

(** X20.  What a client is answered does not depend on what other clients
    have sent: two states of the limiter that agree on the counters of
    the request's address give the same response, and agree on those
    counters afterwards. *)
Theorem X20_clients_do_not_interfere (p : process) (st1 st2 : storage)
    (req : request) :
  (forall scope lim,
     st1 !! (get_remote_address req, scope, lim)
     = st2 !! (get_remote_address req, scope, lim)) ->
  fst (wsgi_app p st1 req) = fst (wsgi_app p st2 req)
  /\ (forall scope lim,
        snd (wsgi_app p st1 req) !! (get_remote_address req, scope, lim)
        = snd (wsgi_app p st2 req) !! (get_remote_address req, scope, lim)).
Proof.
  intros Hagree. rewrite !wsgi_app_response, !wsgi_app_state.
  unfold _check_request_limit.
  destruct (match_request req) as [ep| |]; [| by split..].
  destruct (evaluate_limits_agree (time_time p) (get_remote_address req)
              (endpoint_name ep) (limits_of ep) st1 st2
              (fun lim => Hagree _ lim)) as [Hfst Hsnd].
  split; [by rewrite Hfst |].
  intros scope lim.
  destruct (decide (scope = endpoint_name ep)) as [->|Hne]; [apply Hsnd |].
  rewrite !evaluate_limits_other by (simpl; by intros [= ?]).
  apply Hagree.
Qed.

Lemma X20_witness :
  let req := mk_request GET "/" (Some "203.0.113.7") None (Parsed PNone) in
  let st : storage :=
    {[ key_for "198.51.100.4" "home" home_limit := (10%nat, 60%Z) ]} in
  fst (wsgi_app (mk_process 30 None) ∅ req)
  = fst (wsgi_app (mk_process 30 None) st req)
  /\ (forall scope lim,
        snd (wsgi_app (mk_process 30 None) ∅ req) !! ("203.0.113.7", scope, lim)
        = snd (wsgi_app (mk_process 30 None) st req) !! ("203.0.113.7", scope, lim)).
Proof.
  intros req st.
  apply (X20_clients_do_not_interfere (mk_process 30 None) ∅ st req).
  intros scope lim. simpl.
  etrans; [apply lookup_empty |].
  symmetry. apply lookup_singleton_ne. discriminate.
Defined.

(** ** The hooks after the request *)

(** X21.  Adding the security headers is idempotent: applied to its own
    result the hook changes nothing, so no header is ever doubled. *)
Theorem X21_security_headers_are_idempotent (response : Response) :
  add_security_headers (add_security_headers response)
  = add_security_headers response.
Proof. apply add_security_headers_twice. Qed.

(** X22.  The security hook touches nothing else: the status and the body
    of the response stay as they are, and so do the values of every
    header other than the four it sets. *)
Theorem X22_security_headers_touch_nothing_else (response : Response)
    (key : string) :
  same_key "X-Content-Type-Options" key = false ->
  same_key "X-Frame-Options" key = false ->
  same_key "X-XSS-Protection" key = false ->
  same_key "Strict-Transport-Security" key = false ->
  status (add_security_headers response) = status response
  /\ data (add_security_headers response) = data response
  /\ getlist key (headers (add_security_headers response))
     = getlist key (headers response).
Proof.
  intros H1 H2 H3 H4. repeat split.
  by apply add_security_headers_other.
Qed.

Lemma X22_witness :
  let response := jsonify (PDict [("transcript", PList [])]) in
  status (add_security_headers response) = status response
  /\ data (add_security_headers response) = data response
  /\ getlist "content-type" (headers (add_security_headers response))
     = getlist "content-type" (headers response).
Proof.
  intros response.
  apply (X22_security_headers_touch_nothing_else response "content-type");
    reflexivity.
Defined.

(** X23.  Every response of the server carries the header
    [Access-Control-Allow-Origin] exactly once: its value is the origin
    the request named, or the wildcard when the request named none. *)
Theorem X23_allow_origin_on_every_response (p : process) (st : storage)
    (req : request) (response : Response) :
  returns (fst (wsgi_app p st req)) response ->
  getlist "Access-Control-Allow-Origin" (headers response)
  = [match origin req with
     | Some (String c rest) => String c rest
     | _ => "*"
     end].
Proof.
  intros Hreturns.
  destruct (all_returns_returns _ _ response
              (wsgi_app_from_views
                 (fun rv => getlist "Access-Control-Allow-Origin" (headers rv) = [])
                 p st req (view_without_allow_origin p req)
                 (fun ep => match ep with
                            | EpHome | EpHealth | EpTranscript | EpFavicon => eq_refl
                            end)
                 (fun e => eq_refl))
              Hreturns) as (rv & Hrv & ->).
  by apply process_response_allow_origin.
Qed.

Lemma X23_witness :
  let req :=
    mk_request GET "/health" (Some "203.0.113.7") (Some "https://app.example")
      (Parsed PNone) in
  getlist "Access-Control-Allow-Origin"
    (headers (process_response req (jsonify (PDict [("status", PStr "healthy");
                 ("timestamp", PFloat (float_of_Z 0));
                 ("environment", PStr "development");
                 ("service", PStr "youtube-transcript-api")]))))
  = ["https://app.example"].
Proof.
  intros req.
  apply (X23_allow_origin_on_every_response (mk_process 0 None) ∅ req).
  vm_compute. apply returns_ret.
Defined.

(** ** The environment of the process *)

(** X24.  One variable decides three things at once.  The development
    server runs in debug mode exactly when logging is at level [DEBUG],
    and both are off exactly when [ENVIRONMENT] is "production", which is
    also exactly when the health view reports the environment
    "production"; an unset variable means debug mode. *)
Theorem X24_debug_mode_follows_the_environment (p : process) :
  (debug p = true <-> basicConfig_level p = DEBUG)
  /\ (debug p = false <-> ENVIRONMENT p = Some "production")
  /\ (debug p = false
      <-> health p
          = Ret (jsonify
                   (PDict [("status", PStr "healthy");
                           ("timestamp", PFloat (float_of_Z (time_time p)));
                           ("environment", PStr "production");
                           ("service", PStr "youtube-transcript-api")]))).
Proof.
  unfold debug, basicConfig_level, health.
  destruct (decide (ENVIRONMENT p = Some "production")) as [E|E].
  - rewrite (bool_decide_eq_true_2 _ E), E. simpl.
    repeat split; intros; (done || discriminate).
  - rewrite (bool_decide_eq_false_2 _ E). simpl.
    repeat split; intros H; try done; try discriminate.
    exfalso. apply E. inversion H as [Henv].
    destruct (ENVIRONMENT p) as [environment|]; simpl in Henv;
      [by subst | discriminate].
Qed.

Lemma X24_witness :
  debug (mk_process 0 None) = true.
Proof.
  apply (proj2 (proj1 (X24_debug_mode_follows_the_environment (mk_process 0 None)))).
  reflexivity.
Defined.
